(** * Snnifer_blt: a BLE advertisement sniffer

    A shallow embedding of [Snnifer_blt.py] and the properties of its
    record formatter, log sink, filter, detection handler and scan
    life cycle.

    Conventions of the embedding.
    - A Python [str] is a [string] of 8-bit characters (its UTF-8 bytes);
      [str.lower] is the ASCII case mapping and string comparison is
      byte-wise, which on UTF-8 coincides with code-point order.
    - [None] is the [None] of [option]; an attribute read through
      [getattr(o, a, None)] is [None] both when absent and when [None].
    - A [float] is a [spec_float] (IEEE 754 binary64 as an inductive type).
    - A [dict] whose iteration order is observed is an association list;
      a [dict] used only through lookup and store is a [gmap].
    - Code with effects lives in the monad [M] of state passing with
      exceptions: the state reached when an exception is raised is kept. *)

From Stdlib Require Import ZArith String Ascii List Bool Lia.
From Stdlib Require Import DecimalString SpecFloat.
From stdpp Require Import gmap strings list sorting.

Local Open Scope string_scope.
Local Open Scope Z_scope.

(** ** Strings as Python uses them *)

Module PyStr.

(** [sep.join(parts)] *)
Definition join (sep : string) (parts : list string) : string :=
  String.concat sep parts.

(** [c * n] for a one-character string [c] *)
Fixpoint replicate_char (n : nat) (c : ascii) : string :=
  match n with
  | O => EmptyString
  | S n' => String c (replicate_char n' c)
  end.

(** [format(s, "<w")]: pad with spaces on the right up to width [w] *)
Definition ljust (w : nat) (s : string) : string :=
  s +:+ replicate_char (w - String.length s) " "%char.

(** [format(s, ">w")]: pad with spaces on the left up to width [w] *)
Definition rjust (w : nat) (s : string) : string :=
  replicate_char (w - String.length s) " "%char +:+ s.

(** [str(n)] for an [int] *)
Definition str_int (n : Z) : string :=
  NilZero.string_of_int (Z.to_int n).

Definition is_upper (c : ascii) : bool :=
  let n := nat_of_ascii c in (65 <=? n)%nat && (n <=? 90)%nat.

Definition lower_char (c : ascii) : ascii :=
  if is_upper c then ascii_of_nat (nat_of_ascii c + 32) else c.

(** [s.lower()] *)
Fixpoint lower (s : string) : string :=
  match s with
  | EmptyString => EmptyString
  | String c r => String (lower_char c) (lower r)
  end.

(** [needle in hay] *)
Fixpoint contains (needle hay : string) : bool :=
  String.prefix needle hay ||
  match hay with
  | EmptyString => false
  | String _ r => contains needle r
  end.

(** [x or d] for an optional string: [None] and the empty string are
    falsy *)
Definition or_else (x : option string) (d : option string) : option string :=
  match x with
  | Some (String _ _) => x
  | _ => d
  end.

(** truthiness of an optional string *)
Definition truthy (x : option string) : bool :=
  match x with
  | Some (String _ _) => true
  | _ => false
  end.

(** sorted(l) on strings: the ascending rearrangement of [l] *)
Definition sorted (l : list string) : list string :=
  merge_sort String.le l.

End PyStr.

(** ** Record formatter *)

(** The digit of a value below sixteen, lower case. *)
Definition hex_digit (n : Z) : ascii :=
  if n <? 10 then ascii_of_N (Z.to_N (48 + n)) else ascii_of_N (Z.to_N (87 + n)).

(** The digits of a non-negative integer in base sixteen, most
    significant first, at least one digit. *)
Fixpoint hex_digits (fuel : nat) (n : Z) (acc : string) : string :=
  match fuel with
  | O => acc
  | S fuel' =>
      let acc' := String (hex_digit (n mod 16)) acc in
      if n <? 16 then acc' else hex_digits fuel' (n / 16) acc'
  end.

Definition hex_of_nonneg (n : Z) : string :=
  hex_digits (S (Z.to_nat (Z.log2 n))) n EmptyString.

(** [format(cid, "#06x")]: sign, the prefix [0x], zeros up to a total
    width of six, the digits. *)
Definition format_x6 (cid : Z) : string :=
  let sign := if cid <? 0 then "-" else "" in
  let digits := hex_of_nonneg (Z.abs cid) in
  let used := (String.length sign + 2 + String.length digits)%nat in
  sign +:+ "0x" +:+ PyStr.replicate_char (6 - used) "0"%char +:+ digits.

(** [payload.hex()] *)
Fixpoint bytes_hex (payload : list Byte.byte) : string :=
  match payload with
  | [] => EmptyString
  | b :: r =>
      let n := Z.of_N (Byte.to_N b) in
      String (hex_digit (n / 16)) (String (hex_digit (n mod 16)) (bytes_hex r))
  end.

Definition manu_entry (e : Z * list Byte.byte) : string :=
  format_x6 (fst e) +:+ ":" +:+ bytes_hex (snd e).

Definition _fmt_manu_data (manu : option (list (Z * list Byte.byte))) : string :=
  match manu with
  | None | Some [] => "-"
  | Some items => PyStr.join "," (map manu_entry items)
  end.

Definition _fmt_services (uuids : option (list string)) : string :=
  match uuids with
  | None | Some [] => "-"
  | Some l => PyStr.join "," (PyStr.sorted l)
  end.

(** ** Exceptions, effects and the state of a run *)

Inductive exn :=
  | TypeError
  | ValueError
  | OSError
  | TimeoutError
  | NotImplementedError
  | KeyboardInterrupt
  | CancelledError
  | BleakError.

Inductive signal := SIGINT | SIGTERM.

(** How a suspended wait of the scan session came to an end. *)
Inductive wake := ByStopEvent | ByTimer | ByException (e : exn).

Definition Time := Z.

(** What the program does to the world around it, in the order it does
    it. [Woke] is a ghost entry: it records when and why the wait of the
    scanning phase ended. *)
Inductive effect :=
  | Printed (line : string)
  | FileOpened (path : string) (fd : nat)
  | FileWritten (fd : nat) (data : string)
  | FileClosed (fd : nat)
  | HandlerAdded (sig : signal)
  | ScannerStarted
  | ScannerStopped
  | CallbackRaised (e : exn)
  | Woke (why : wake) (t : Time).

(** A path of the file system names a regular file or something that
    cannot be opened for append. *)
Inductive node := File (content : string) | NoAccess.

(** [class CsvWriter]: the attributes of an instance. *)
Record CsvWriter := mkCsvWriter {
  _path : option string;
  _fh : option nat;
  _writer : option nat
}.

Record State := mkState {
  files : gmap string node;
  handles : gmap nat string;
  next_fd : nat;
  now_iso : nat -> string;
  ticks : nat;
  trace : list effect;
  csvw : CsvWriter;
  last_seen : gmap string (option Z);
  stop_event : bool;
  scanner_active : bool
}.

Definition set_files f (s : State) : State :=
  mkState f (handles s) (next_fd s) (now_iso s) (ticks s) (trace s) (csvw s)
          (last_seen s) (stop_event s) (scanner_active s).
Definition set_handles h (s : State) : State :=
  mkState (files s) h (next_fd s) (now_iso s) (ticks s) (trace s) (csvw s)
          (last_seen s) (stop_event s) (scanner_active s).
Definition set_next_fd n (s : State) : State :=
  mkState (files s) (handles s) n (now_iso s) (ticks s) (trace s) (csvw s)
          (last_seen s) (stop_event s) (scanner_active s).
Definition set_ticks n (s : State) : State :=
  mkState (files s) (handles s) (next_fd s) (now_iso s) n (trace s) (csvw s)
          (last_seen s) (stop_event s) (scanner_active s).
Definition set_trace t (s : State) : State :=
  mkState (files s) (handles s) (next_fd s) (now_iso s) (ticks s) t (csvw s)
          (last_seen s) (stop_event s) (scanner_active s).
Definition set_csvw w (s : State) : State :=
  mkState (files s) (handles s) (next_fd s) (now_iso s) (ticks s) (trace s) w
          (last_seen s) (stop_event s) (scanner_active s).
Definition set_last_seen m (s : State) : State :=
  mkState (files s) (handles s) (next_fd s) (now_iso s) (ticks s) (trace s) (csvw s)
          m (stop_event s) (scanner_active s).
Definition set_stop_event b (s : State) : State :=
  mkState (files s) (handles s) (next_fd s) (now_iso s) (ticks s) (trace s) (csvw s)
          (last_seen s) b (scanner_active s).
Definition set_scanner_active b (s : State) : State :=
  mkState (files s) (handles s) (next_fd s) (now_iso s) (ticks s) (trace s) (csvw s)
          (last_seen s) (stop_event s) b.

(** The result of running a piece of code: it returns, it raises, or it
    is still suspended when the script of the environment ends. *)
Inductive outcome (A : Type) :=
  | Done (a : A)
  | Raised (e : exn)
  | Blocked.
Arguments Done {A} a.
Arguments Raised {A} e.
Arguments Blocked {A}.

Definition M (A : Type) : Type := State -> outcome A * State.

Definition ret {A} (a : A) : M A := fun s => (Done a, s).

Definition bind {A B} (m : M A) (k : A -> M B) : M B :=
  fun s =>
    match m s with
    | (Done a, s') => k a s'
    | (Raised e, s') => (Raised e, s')
    | (Blocked, s') => (Blocked, s')
    end.

Definition raise {A} (e : exn) : M A := fun s => (Raised e, s).

Definition block {A} : M A := fun s => (Blocked, s).

Definition get : M State := fun s => (Done s, s).

Definition modify (f : State -> State) : M unit := fun s => (Done tt, f s).

Definition emit (e : effect) : M unit :=
  modify (fun s => set_trace (trace s ++ [e]) s).

Declare Scope eff_scope.
Delimit Scope eff_scope with eff.
Notation "x <- m ;; k" := (bind m (fun x => k))
  (at level 100, m at next level, right associativity) : eff_scope.
Notation "m ;;; k" := (bind m (fun _ => k))
  (at level 100, right associativity) : eff_scope.
Local Open Scope eff_scope.

(** [try: body finally: fin] *)
Definition try_finally {A} (body : M A) (fin : M unit) : M A :=
  fun s =>
    match body s with
    | (Blocked, s') => (Blocked, s')
    | (r, s') =>
        match fin s' with
        | (Done _, s'') => (r, s'')
        | (Raised e, s'') => (Raised e, s'')
        | (Blocked, s'') => (Blocked, s'')
        end
    end.

(** [try: body except TimeoutError: pass] *)
Definition except_timeout (body : M unit) : M unit :=
  fun s =>
    match body s with
    | (Raised TimeoutError, s') => (Done tt, s')
    | r => r
    end.

(** ** The operating system: files opened for append, the console, the clock *)

(** [open(path, "a", newline="", encoding="utf-8")] *)
Definition os_open_append (path : string) : M nat :=
  s <- get ;;
  match files s !! path with
  | Some NoAccess => raise OSError
  | found =>
      let fd := next_fd s in
      modify (fun s =>
        set_next_fd (S fd)
          (set_handles (<[fd := path]> (handles s))
             (match found with
              | None => set_files (<[path := File ""]> (files s)) s
              | Some _ => s
              end))) ;;;
      emit (FileOpened path fd) ;;;
      ret fd
  end.

Definition content_of (s : State) (path : string) : string :=
  match files s !! path with
  | Some (File c) => c
  | _ => ""
  end.

(** [fh.tell()] on a handle opened for append: the size of the file *)
Definition os_tell (fd : nat) : M nat :=
  s <- get ;;
  match handles s !! fd with
  | Some path => ret (String.length (content_of s path))
  | None => raise ValueError
  end.

(** [fh.write(data)] on a handle opened for append *)
Definition os_write (fd : nat) (data : string) : M unit :=
  s <- get ;;
  match handles s !! fd with
  | Some path =>
      modify (fun s => set_files (<[path := File (content_of s path +:+ data)]> (files s)) s) ;;;
      emit (FileWritten fd data)
  | None => raise ValueError
  end.

(** [fh.close()] *)
Definition os_close (fd : nat) : M unit :=
  s <- get ;;
  match handles s !! fd with
  | Some _ =>
      modify (fun s => set_handles (delete fd (handles s)) s) ;;;
      emit (FileClosed fd)
  | None => ret tt
  end.

(** [print(line)] *)
Definition print (line : string) : M unit := emit (Printed line).

(** [_now_iso()]: one reading of the clock *)
Definition _now_iso : M string :=
  s <- get ;;
  modify (set_ticks (S (ticks s))) ;;;
  ret (now_iso s (ticks s)).

(** ** The rows of [csv.writer] (dialect excel, minimal quoting) *)

Definition dquote : ascii := ascii_of_nat 34.
Definition cr : ascii := ascii_of_nat 13.
Definition lf : ascii := ascii_of_nat 10.
Definition crlf : string := String cr (String lf EmptyString).

Definition csv_special (c : ascii) : bool :=
  Ascii.eqb c ","%char || Ascii.eqb c dquote || Ascii.eqb c cr || Ascii.eqb c lf.

Fixpoint needs_quotes (f : string) : bool :=
  match f with
  | EmptyString => false
  | String c r => csv_special c || needs_quotes r
  end.

Fixpoint double_quotes (f : string) : string :=
  match f with
  | EmptyString => EmptyString
  | String c r =>
      if Ascii.eqb c dquote then String dquote (String dquote (double_quotes r))
      else String c (double_quotes r)
  end.

Definition csv_field (f : string) : string :=
  if needs_quotes f then String dquote (double_quotes f +:+ String dquote EmptyString)
  else f.

Definition csv_row (fields : list string) : string :=
  PyStr.join "," (map csv_field fields) +:+ crlf.

(** [writer.writerow(row)] for the writer bound to the handle [fd] *)
Definition writerow (fd : nat) (row : list string) : M unit :=
  os_write fd (csv_row row).

(** ** Log sink: [class CsvWriter] *)

Definition header : list string :=
  ["timestamp"; "address"; "name"; "rssi"; "tx_power"; "manufacturer_data";
   "service_uuids"].

(** [CsvWriter.__init__] *)
Definition CsvWriter_init (path : option string) : CsvWriter :=
  mkCsvWriter path None None.

Definition CsvWriter_open : M unit :=
  s <- get ;;
  match _path (csvw s) with
  | None | Some EmptyString => ret tt
  | Some path =>
      fd <- os_open_append path ;;
      modify (fun s => set_csvw (mkCsvWriter (_path (csvw s)) (Some fd) (_writer (csvw s))) s) ;;;
      modify (fun s => set_csvw (mkCsvWriter (_path (csvw s)) (_fh (csvw s)) (Some fd)) s) ;;;
      pos <- os_tell fd ;;
      if (pos =? 0)%nat then writerow fd header else ret tt
  end.

Definition opt_int_field (x : option Z) : string :=
  match x with
  | Some n => PyStr.str_int n
  | None => ""
  end.

Definition str_or_empty (x : option string) : string :=
  match x with
  | Some s => s
  | None => ""
  end.

(** The list that [CsvWriter.write] hands to [writerow], each value as
    [csv.writer] renders it. *)
Definition detection_row (timestamp address : string) (name : option string)
    (rssi tx_power : option Z)
    (manufacturer_data : option (list (Z * list Byte.byte)))
    (service_uuids : option (list string)) : list string :=
  [timestamp; address; str_or_empty name; opt_int_field rssi;
   opt_int_field tx_power; _fmt_manu_data manufacturer_data;
   _fmt_services service_uuids].

Definition CsvWriter_write (timestamp address : string) (name : option string)
    (rssi tx_power : option Z)
    (manufacturer_data : option (list (Z * list Byte.byte)))
    (service_uuids : option (list string)) : M unit :=
  s <- get ;;
  match _writer (csvw s) with
  | None => ret tt
  | Some w =>
      writerow w
        (detection_row timestamp address name rssi tx_power manufacturer_data
           service_uuids)
  end.

Definition CsvWriter_close : M unit :=
  s <- get ;;
  match _fh (csvw s) with
  | Some fd =>
      os_close fd ;;;
      modify (fun s => set_csvw (mkCsvWriter (_path (csvw s)) None (_writer (csvw s))) s) ;;;
      modify (fun s => set_csvw (mkCsvWriter (_path (csvw s)) (_fh (csvw s)) None) s)
  | None => ret tt
  end.

(** ** Advertisement events *)

(** The device object handed to the detection callback. [dev_address]
    and [dev_mac_address] are [None] when the attribute is missing. *)
Record BLEDevice := mkDevice {
  dev_address : option string;
  dev_mac_address : option string;
  dev_name : option string;
  dev_rssi : option Z
}.

Record AdvertisementData := mkAdv {
  local_name : option string;
  rssi : option Z;
  tx_power : option Z;
  manufacturer_data : option (list (Z * list Byte.byte));
  service_uuids : option (list string)
}.

(** ** Detection pipeline *)

Definition print_detection (address : string) (name : option string)
    (rssi : option Z) (adv : AdvertisementData) : M unit :=
  ts <- _now_iso ;;
  let manu := _fmt_manu_data (manufacturer_data adv) in
  let services := _fmt_services (service_uuids adv) in
  let txp := tx_power adv in
  match rssi with
  | None => raise TypeError
  | Some r =>
      print
        ("[" +:+ ts +:+ "] " +:+ PyStr.ljust 20 address +:+
         " RSSI=" +:+ PyStr.rjust 4 (PyStr.str_int r) +:+ " dBm  TX=" +:+
         PyStr.rjust 3 (match txp with Some t => PyStr.str_int t | None => "-" end) +:+
         "  " +:+
         "Name=" +:+
         str_or_empty (PyStr.or_else (PyStr.or_else name (local_name adv)) (Some "-")) +:+
         "  Manu=" +:+ manu +:+ "  Services=" +:+ services)
  end.

(** The values [on_detect] resolves before it filters. *)
Definition resolve_addr (device : BLEDevice) : string :=
  match dev_address device with
  | Some a => a
  | None =>
      match dev_mac_address device with
      | Some a => a
      | None => "?"
      end
  end.

Definition resolve_name (device : BLEDevice) (adv : AdvertisementData) : option string :=
  PyStr.or_else (dev_name device) (local_name adv).

Definition resolve_rssi (device : BLEDevice) (adv : AdvertisementData) : option Z :=
  match rssi adv with
  | Some r => Some r
  | None => dev_rssi device
  end.

(** The two guards of [on_detect] that return early. *)
Definition name_rejected (filter_name : option string) (name : option string) : bool :=
  match filter_name with
  | Some (String _ _ as f) =>
      negb (PyStr.contains (PyStr.lower f)
              (PyStr.lower (str_or_empty (PyStr.or_else name (Some "")))))
  | _ => false
  end.

Definition address_rejected (filter_address : option string) (addr : string) : bool :=
  match filter_address with
  | Some (String _ _ as f) => negb (PyStr.contains (PyStr.lower f) (PyStr.lower addr))
  | _ => false
  end.

(** The closure [on_detect] of [scan_ble], with the variables it
    captures as parameters: the two filters explicitly, [last_seen] and
    [csvw] in the state. *)
Definition on_detect (filter_name filter_address : option string)
    (device : BLEDevice) (adv : AdvertisementData) : M unit :=
  let addr := resolve_addr device in
  let name := resolve_name device adv in
  let rssi := resolve_rssi device adv in
  if name_rejected filter_name name then ret tt
  else if address_rejected filter_address addr then ret tt
  else
    modify (fun s => set_last_seen (<[addr := rssi]> (last_seen s)) s) ;;;
    print_detection addr name rssi adv ;;;
    ts <- _now_iso ;;
    CsvWriter_write ts addr name rssi (tx_power adv) (manufacturer_data adv)
      (service_uuids adv).

(** The filter of [on_detect] as a predicate on the resolved name and
    address: the handler goes on past both guards. *)
Definition accepts (filter_name filter_address : option string)
    (name : option string) (addr : string) : bool :=
  negb (name_rejected filter_name name) &&
  negb (address_rejected filter_address addr).

(** ** The discovery primitive and the event loop

    The scanner and the asyncio loop are outside the program. A run is
    driven by a script: what the scanner answers to its construction,
    to [start()] and to [stop()], and the events that arrive, each at its
    time, while the coroutine is suspended. [Trigger] is the arrival of a signal whose
    handler was registered (the loop calls [_request_stop]); an interrupt
    without a registered handler is [Throw KeyboardInterrupt];
    [TimerExpired] is the passing of the deadline of a pending
    [wait_for], and means nothing when no deadline is pending. *)

Inductive env_event :=
  | Detect (device : BLEDevice) (adv : AdvertisementData)
  | Trigger
  | TimerExpired
  | Throw (e : exn).

Record Env := mkEnv {
  sig_supported : signal -> bool;
  init_error : option exn;
  start_error : option exn;
  script : list (Time * env_event);
  stop_callbacks : list (BLEDevice * AdvertisementData);
  stop_error : option exn
}.

(** The scanner invokes the detection callback; an exception of the
    callback does not reach the coroutine. *)
Definition deliver (callback : M unit) : M unit :=
  fun s =>
    match callback s with
    | (Raised e, s') => emit (CallbackRaised e) s'
    | r => r
    end.

Fixpoint deliver_all (callback : BLEDevice -> AdvertisementData -> M unit)
    (events : list (BLEDevice * AdvertisementData)) : M unit :=
  match events with
  | [] => ret tt
  | (d, a) :: rest => deliver (callback d a) ;;; deliver_all callback rest
  end.

(** [BleakScanner(detection_callback=on_detect)] *)
Definition scanner_init (env : Env) : M unit :=
  match init_error env with
  | Some e => raise e
  | None => ret tt
  end.

(** [await scanner.start()] *)
Definition scanner_start (env : Env) : M unit :=
  match start_error env with
  | Some e => raise e
  | None => modify (set_scanner_active true) ;;; emit ScannerStarted
  end.

(** [await scanner.stop()]: callbacks may still run until it completes. *)
Definition scanner_stop (callback : BLEDevice -> AdvertisementData -> M unit)
    (env : Env) : M unit :=
  deliver_all callback (stop_callbacks env) ;;;
  match stop_error env with
  | Some e => raise e
  | None => modify (set_scanner_active false) ;;; emit ScannerStopped
  end.

(** [_request_stop] *)
Definition _request_stop : M unit := modify (set_stop_event true).

(** The coroutine is suspended until [stop_event] is set; with
    [timeout = Some d] the wait raises [TimeoutError] once the deadline
    passes. *)
Fixpoint suspended (callback : BLEDevice -> AdvertisementData -> M unit)
    (timeout : option spec_float) (events : list (Time * env_event)) : M unit :=
  match events with
  | [] => block
  | (t, ev) :: rest =>
      match ev with
      | Detect d a => deliver (callback d a) ;;; suspended callback timeout rest
      | Trigger => _request_stop ;;; emit (Woke ByStopEvent t)
      | TimerExpired =>
          match timeout with
          | Some _ => emit (Woke ByTimer t) ;;; raise TimeoutError
          | None => suspended callback timeout rest
          end
      | Throw e => emit (Woke (ByException e) t) ;;; raise e
      end
  end.

(** [await stop_event.wait()] *)
Definition stop_event_wait (callback : BLEDevice -> AdvertisementData -> M unit)
    (events : list (Time * env_event)) : M unit :=
  s <- get ;;
  if stop_event s then ret tt else suspended callback None events.

(** [await asyncio.wait_for(stop_event.wait(), timeout=timeout)] *)
Definition wait_for_stop_event (callback : BLEDevice -> AdvertisementData -> M unit)
    (timeout : option spec_float) (events : list (Time * env_event)) : M unit :=
  s <- get ;;
  if stop_event s then ret tt else suspended callback timeout events.

(** [loop.add_signal_handler(sig, _request_stop)] *)
Definition add_signal_handler (env : Env) (sig : signal) : M unit :=
  if sig_supported env sig then emit (HandlerAdded sig) else raise NotImplementedError.

Definition except_not_implemented (body : M unit) : M unit :=
  fun s =>
    match body s with
    | (Raised NotImplementedError, s') => (Done tt, s')
    | r => r
    end.

(** ** Scan life cycle *)

(** [d == 0] for a float: true of both zeros, false of a NaN. *)
Definition float_eq_zero (d : spec_float) : bool := SFeqb d (S754_zero false).

(** [duration in (None, 0)] *)
Definition in_none_zero (duration : option spec_float) : bool :=
  match duration with
  | None => true
  | Some d => float_eq_zero d
  end.

(** [not duration] *)
Definition not_duration (duration : option spec_float) : bool :=
  match duration with
  | None => true
  | Some d => float_eq_zero d
  end.

(** The [try] block of [scan_ble]. *)
Definition scan_try (duration : option spec_float) (continuous : bool)
    (on_detect : BLEDevice -> AdvertisementData -> M unit) (env : Env) : M unit :=
  scanner_start env ;;;
  if continuous && in_none_zero duration then
    stop_event_wait on_detect (script env)
  else
    except_timeout
      (wait_for_stop_event on_detect
         (if not_duration duration then None else duration) (script env)).

(** The [finally] block of [scan_ble]. *)
Definition scan_finally (on_detect : BLEDevice -> AdvertisementData -> M unit)
    (env : Env) : M unit :=
  scanner_stop on_detect env ;;;
  CsvWriter_close.

Definition scan_ble (duration : option spec_float)
    (filter_name filter_address : option string) (continuous : bool)
    (csv_path : option string) (env : Env) : M unit :=
  modify (set_csvw (CsvWriter_init csv_path)) ;;;
  CsvWriter_open ;;;
  modify (set_stop_event false) ;;;
  except_not_implemented (add_signal_handler env SIGINT) ;;;
  except_not_implemented (add_signal_handler env SIGTERM) ;;;
  modify (set_last_seen ∅) ;;;
  let on_detect := on_detect filter_name filter_address in
  scanner_init env ;;;
  try_finally
    (scan_try duration continuous on_detect env)
    (scan_finally on_detect env).

(** [parse_args]: the namespace it returns. *)
Record Args := mkArgs {
  arg_duration : spec_float;
  arg_continuous : bool;
  arg_filter_name : option string;
  arg_filter_address : option string;
  arg_csv : option string
}.

(** The [duration] that [main] hands to [scan_ble]. *)
Definition main_duration (args : Args) : option spec_float :=
  if arg_continuous args then None
  else if float_eq_zero (arg_duration args) then None
  else Some (arg_duration args).

Definition main (args : Args) (env : Env) : M Z :=
  fun s =>
    match scan_ble (main_duration args) (arg_filter_name args)
            (arg_filter_address args) (arg_continuous args) (arg_csv args) env s with
    | (Done _, s') => (Done 0, s')
    | (Raised KeyboardInterrupt, s') => (Done 0, s')
    | (Raised e, s') => (Raised e, s')
    | (Blocked, s') => (Blocked, s')
    end.

(** The state a process starts in. *)
Definition initial_state (fs : gmap string node) (clock : nat -> string) : State :=
  mkState fs ∅ 3 clock 0 [] (CsvWriter_init None) ∅ false false.

(** ** Reference definitions used by the statements *)

(** The four digits of a 16-bit value in base sixteen, most significant
    first. *)
Definition hex4 (n : Z) : string :=
  String (hex_digit (n / 4096 mod 16))
    (String (hex_digit (n / 256 mod 16))
       (String (hex_digit (n / 16 mod 16))
          (String (hex_digit (n mod 16)) EmptyString))).

(** The characters [0]..[9] and [a]..[f]. *)
Definition is_lower_hex (c : ascii) : bool :=
  let n := nat_of_ascii c in
  ((48 <=? n)%nat && (n <=? 57)%nat) || ((97 <=? n)%nat && (n <=? 102)%nat).

Fixpoint string_forall (p : ascii -> bool) (s : string) : bool :=
  match s with
  | EmptyString => true
  | String c r => p c && string_forall p r
  end.

(** The number that a string of lower-case hexadecimal digits denotes. *)
Definition hex_digit_value (c : ascii) : Z :=
  let n := Z.of_nat (nat_of_ascii c) in
  if n <? 58 then n - 48 else n - 87.

Fixpoint hex_value_from (acc : Z) (s : string) : Z :=
  match s with
  | EmptyString => acc
  | String c r => hex_value_from (16 * acc + hex_digit_value c) r
  end.

Definition hex_value (s : string) : Z := hex_value_from 0 s.

(** One entry of the manufacturer data as the specification words it. *)
Definition manu_entry_spec (e : Z * list Byte.byte) : string :=
  "0x" +:+ hex4 (fst e) +:+ ":" +:+ bytes_hex (snd e).

(** The number of records a CSV reader finds in a text: the line feeds
    that are not inside a quoted field. *)
Fixpoint csv_records_from (in_quotes : bool) (text : string) : nat :=
  match text with
  | EmptyString => O
  | String c r =>
      if Ascii.eqb c dquote then csv_records_from (negb in_quotes) r
      else if Ascii.eqb c lf && negb in_quotes then S (csv_records_from in_quotes r)
      else csv_records_from in_quotes r
  end.

Definition csv_records (text : string) : nat := csv_records_from false text.


(** The events of a delivery that pass the filter, and the signal
    strength of the last one that carries a given address. *)
Definition event_accepted (filter_name filter_address : option string)
    (ev : BLEDevice * AdvertisementData) : bool :=
  accepts filter_name filter_address (resolve_name (fst ev) (snd ev))
    (resolve_addr (fst ev)).

Definition accepted_events (filter_name filter_address : option string)
    (evs : list (BLEDevice * AdvertisementData)) :
    list (BLEDevice * AdvertisementData) :=
  List.filter (event_accepted filter_name filter_address) evs.

Definition event_addr (ev : BLEDevice * AdvertisementData) : string :=
  resolve_addr (fst ev).

Fixpoint latest_rssi (a : string) (evs : list (BLEDevice * AdvertisementData)) :
    option (option Z) :=
  match evs with
  | [] => None
  | ev :: rest =>
      match latest_rssi a rest with
      | Some r => Some r
      | None =>
          if String.eqb (event_addr ev) a
          then Some (resolve_rssi (fst ev) (snd ev))
          else None
      end
  end.

(** The last-seen map agrees with the accepted part of a history of
    events. *)
Definition reflects (filter_name filter_address : option string)
    (h : list (BLEDevice * AdvertisementData)) (s : State) : Prop :=
  forall a,
    last_seen s !! a = latest_rssi a (accepted_events filter_name filter_address h).

(** A writer of the sink, if any, is bound to an open handle. *)
Definition sink_ok (s : State) : Prop :=
  match _writer (csvw s) with
  | Some w => is_Some (handles s !! w)
  | None => True
  end.

(** The same advertisement with a signal strength. *)
Definition with_rssi (r : Z) (adv : AdvertisementData) : AdvertisementData :=
  mkAdv (local_name adv) (Some r) (tx_power adv) (manufacturer_data adv)
        (service_uuids adv).


(** Whether the discovery primitive is running after a trace. *)
Definition discovery_active (t : list effect) : bool :=
  fold_left
    (fun active e =>
       match e with
       | ScannerStarted => true
       | ScannerStopped => false
       | _ => active
       end) t false.

(** Classes of trace entries. *)
Definition from_handler (e : effect) : bool :=
  match e with
  | Printed _ | FileWritten _ _ | CallbackRaised _ => true
  | _ => false
  end.

Definition from_setup (e : effect) : bool :=
  match e with
  | FileOpened _ _ | FileWritten _ _ | HandlerAdded _ => true
  | _ => false
  end.

Definition is_close (e : effect) : bool :=
  match e with
  | FileClosed _ => true
  | _ => false
  end.

Definition is_woke (e : effect) : bool :=
  match e with
  | Woke _ _ => true
  | _ => false
  end.


(** [s'] is reached from [s] by adding trace entries that all satisfy
    [P], the sink object and the open handles being left alone. *)
Definition extends (P : effect -> bool) (s s' : State) : Prop :=
  exists t, trace s' = (trace s ++ t)%list /\ forallb P t = true.

Definition keeps (P : effect -> bool) (s s' : State) : Prop :=
  extends P s s' /\ csvw s' = csvw s /\ handles s' = handles s.

(** Whether [scan_ble] waits with a deadline. *)
Definition timer_armed (continuous : bool) (duration : option spec_float) : bool :=
  if continuous && in_none_zero duration then false
  else negb (not_duration duration).

(** [P] holds of every trace entry a session can add before its
    teardown; of the expiry of the timer only when a timer is armed. *)
Definition before_teardown (armed : bool) (P : effect -> bool) : Prop :=
  forall e,
    match e with
    | FileClosed _ | ScannerStopped => True
    | Woke ByTimer _ => armed = true -> P e = true
    | _ => P e = true
    end.

Definition not_close (e : effect) : bool := negb (is_close e).


Definition not_woke (e : effect) : bool := negb (is_woke e).

(** The sink may be opened on the configured path. *)
Definition can_open (csv_path : option string) (s : State) : Prop :=
  forall p, csv_path = Some p -> p <> "" -> files s !! p <> Some NoAccess.

(** What the teardown of a session adds to the trace when it completes. *)
Definition teardown_trace (csv_path : option string) (s : State) : list effect :=
  ScannerStopped ::
  (if PyStr.truthy csv_path then [FileClosed (next_fd s)] else []).

(** ** Reference definitions for the further properties *)

(** The line that [print_detection] prints for a signal strength [r]. *)
Definition console_line (ts address : string) (name : option string) (r : Z)
    (adv : AdvertisementData) : string :=
  "[" +:+ ts +:+ "] " +:+ PyStr.ljust 20 address +:+
  " RSSI=" +:+ PyStr.rjust 4 (PyStr.str_int r) +:+ " dBm  TX=" +:+
  PyStr.rjust 3 (match tx_power adv with Some t => PyStr.str_int t | None => "-" end) +:+
  "  " +:+
  "Name=" +:+
  str_or_empty (PyStr.or_else (PyStr.or_else name (local_name adv)) (Some "-")) +:+
  "  Manu=" +:+ _fmt_manu_data (manufacturer_data adv) +:+
  "  Services=" +:+ _fmt_services (service_uuids adv).

(** The row that [on_detect] hands to the sink for an event, given the
    reading of the clock. *)
Definition event_row (ts : string) (device : BLEDevice) (adv : AdvertisementData) :
    list string :=
  detection_row ts (resolve_addr device) (resolve_name device adv)
    (resolve_rssi device adv) (tx_power adv) (manufacturer_data adv)
    (service_uuids adv).







(** The file a session logs to, if any. *)
Definition log_target (csv_path : option string) : option string :=
  if PyStr.truthy csv_path then csv_path else None.

(** From [s] to [s'] no file but the target changed, and the target
    only grew at its end. *)
Definition appends_only (target : option string) (s s' : State) : Prop :=
  (forall p, target <> Some p -> files s' !! p = files s !! p) /\
  (forall p, target = Some p ->
             exists appended, content_of s' p = content_of s p +:+ appended).

(** A writer of the sink, if any, is bound to a handle on the target. *)
Definition writer_bound (target : option string) (s : State) : Prop :=
  forall w, _writer (csvw s) = Some w ->
            exists p, target = Some p /\ handles s !! w = Some p.

(** [m] keeps the invariant [I] and relates the states before and after
    by [R]. *)
Definition step_ok {A} (I : State -> Prop) (R : State -> State -> Prop)
    (m : M A) : Prop :=
  forall s, I s -> I (snd (m s)) /\ R s (snd (m s)).

(** Events of the script that only call the detection handler. *)
Definition is_detect (ev : Time * env_event) : bool :=
  match snd ev with
  | Detect _ _ => true
  | _ => false
  end.

(** The timeout that [scan_ble] waits with. *)
Definition effective_timeout (continuous : bool) (duration : option spec_float) :
    option spec_float :=
  if continuous && in_none_zero duration then None
  else if not_duration duration then None else duration.

(** How an event of the script ends a wait with the given timeout, and
    what the wait then does: returns or raises. *)
Definition head_wake (timeout : option spec_float) (ev : env_event) :
    option (wake * outcome unit) :=
  match ev with
  | Detect _ _ => None
  | Trigger => Some (ByStopEvent, Done tt)
  | TimerExpired =>
      match timeout with
      | Some _ => Some (ByTimer, Raised TimeoutError)
      | None => None
      end
  | Throw e => Some (ByException e, Raised e)
  end.

(** What the [try] block makes of the outcome of its wait: the bounded
    branch swallows [TimeoutError]. *)
Definition caught (continuous : bool) (duration : option spec_float)
    (o : outcome unit) : outcome unit :=
  if continuous && in_none_zero duration then o
  else match o with
       | Raised TimeoutError => Done tt
       | _ => o
       end.




(** What follows the first part of a joined string: nothing, or the
    separator and the remaining parts joined. *)
Definition join_rest (sep : string) (parts : list string) : string :=
  match parts with
  | [] => EmptyString
  | _ => sep +:+ PyStr.join sep parts
  end.

Definition not_comma (c : ascii) : bool := negb (Ascii.eqb c ","%char).

Definition sign_of (cid : Z) : string := if cid <? 0 then "-" else "".

(** Trace entries that come from the setup of a session or from the
    detection handler: neither the start of the discovery, nor a wake-up,
    nor the teardown. *)
Definition setup_or_handler (e : effect) : bool := from_setup e || from_handler e.

(** The sink object once [scan_ble] has opened it. *)
Definition opened_sink (csv_path : option string) (s : State) : CsvWriter :=
  if PyStr.truthy csv_path
  then mkCsvWriter csv_path (Some (next_fd s)) (Some (next_fd s))
  else CsvWriter_init csv_path.

(** The same advertisement without a local name. *)
Definition without_local_name (adv : AdvertisementData) : AdvertisementData :=
  mkAdv None (rssi adv) (tx_power adv) (manufacturer_data adv) (service_uuids adv).

(** ** Record formatter: proofs *)

Section Formatter.

Lemma hex_digit_lower (n : Z) : 0 <= n < 16 -> is_lower_hex (hex_digit n) = true.
Proof.
  intros Hn.
  assert (Hall : forallb (fun k => is_lower_hex (hex_digit (Z.of_nat k)))
                   (seq 0 16) = true) by reflexivity.
  rewrite forallb_forall in Hall.
  rewrite <- (Z2Nat.id n) by lia.
  apply Hall, in_seq. lia.
Qed.

Lemma hex_digit_value_digit (n : Z) :
  0 <= n < 16 -> hex_digit_value (hex_digit n) = n.
Proof.
  intros Hn.
  assert (Hall : forallb (fun k => hex_digit_value (hex_digit (Z.of_nat k))
                                   =? Z.of_nat k) (seq 0 16) = true) by reflexivity.
  rewrite forallb_forall in Hall.
  rewrite <- (Z2Nat.id n) by lia.
  apply Z.eqb_eq, Hall, in_seq. lia.
Qed.

Lemma hex4_value (n : Z) : 0 <= n < 2 ^ 16 -> hex_value (hex4 n) = n.
Proof.
  intros Hn. change (2 ^ 16) with 65536 in Hn.
  unfold hex_value, hex4. cbn [hex_value_from].
  rewrite !hex_digit_value_digit by (apply Z.mod_pos_bound; lia).
  Z.div_mod_to_equations. lia.
Qed.

Lemma hex4_lower (n : Z) : string_forall is_lower_hex (hex4 n) = true.
Proof.
  unfold hex4. cbn [string_forall].
  rewrite !hex_digit_lower; [reflexivity | apply Z.mod_pos_bound; lia ..].
Qed.

Lemma bytes_hex_lower (p : list Byte.byte) :
  string_forall is_lower_hex (bytes_hex p) = true.
Proof.
  induction p as [| b p IH]; [reflexivity |].
  cbn [bytes_hex string_forall]. rewrite IH.
  destruct b; reflexivity.
Qed.

Lemma bytes_hex_length (p : list Byte.byte) :
  String.length (bytes_hex p) = (2 * List.length p)%nat.
Proof.
  induction p as [| b p IH]; [reflexivity |].
  cbn [bytes_hex String.length List.length]. rewrite IH. lia.
Qed.

Lemma hex_digits_small (fuel : nat) (n : Z) (acc : string) :
  n < 16 -> hex_digits (S fuel) n acc = String (hex_digit (n mod 16)) acc.
Proof.
  intros Hn. cbn [hex_digits].
  destruct (Z.ltb_spec n 16); [reflexivity | lia].
Qed.

Lemma hex_digits_large (fuel : nat) (n : Z) (acc : string) :
  16 <= n ->
  hex_digits (S fuel) n acc =
  hex_digits fuel (n / 16) (String (hex_digit (n mod 16)) acc).
Proof.
  intros Hn. cbn [hex_digits].
  destruct (Z.ltb_spec n 16); [lia | reflexivity].
Qed.

Lemma log2_fuel (n : Z) (k : Z) :
  0 <= k -> 2 ^ k <= n -> (Z.to_nat k <= Z.to_nat (Z.log2 n))%nat.
Proof.
  intros Hk Hn.
  assert (k <= Z.log2 n) by (apply Z.log2_le_pow2; lia).
  lia.
Qed.

Lemma format_x6_16bit (cid : Z) :
  0 <= cid < 2 ^ 16 -> format_x6 cid = "0x" +:+ hex4 cid.
Proof.
  intros [Hlo Hhi]. change (2 ^ 16) with 65536 in Hhi.
  unfold format_x6, hex_of_nonneg.
  destruct (Z.ltb_spec cid 0) as [? | _]; [lia |].
  rewrite Z.abs_eq by lia.
  unfold hex4.
  destruct (Z_lt_le_dec cid 16) as [H1 | H1].
  { rewrite hex_digits_small by lia.
    replace (cid / 4096) with 0 by (symmetry; apply Z.div_small; lia).
    replace (cid / 256) with 0 by (symmetry; apply Z.div_small; lia).
    replace (cid / 16) with 0 by (symmetry; apply Z.div_small; lia).
    reflexivity. }
  destruct (Z_lt_le_dec cid 256) as [H2 | H2].
  { pose proof (log2_fuel cid 4 ltac:(lia) ltac:(change (2 ^ 4) with 16; lia)) as Hf.
    destruct (Z.to_nat (Z.log2 cid)) as [| f]; [cbn in Hf; lia |].
    rewrite hex_digits_large by lia.
    rewrite hex_digits_small by (apply Z.div_lt_upper_bound; lia).
    replace (cid / 4096) with 0 by (symmetry; apply Z.div_small; lia).
    replace (cid / 256) with 0 by (symmetry; apply Z.div_small; lia).
    reflexivity. }
  destruct (Z_lt_le_dec cid 4096) as [H3 | H3].
  { pose proof (log2_fuel cid 8 ltac:(lia) ltac:(change (2 ^ 8) with 256; lia)) as Hf.
    destruct (Z.to_nat (Z.log2 cid)) as [| [| f]]; [cbn in Hf; lia .. |].
    rewrite hex_digits_large by lia.
    rewrite hex_digits_large by (apply Z.div_le_lower_bound; lia).
    rewrite hex_digits_small by (rewrite Z.div_div by lia; apply Z.div_lt_upper_bound; lia).
    rewrite !Z.div_div by lia.
    replace (cid / 4096) with 0 by (symmetry; apply Z.div_small; lia).
    reflexivity. }
  pose proof (log2_fuel cid 12 ltac:(lia) ltac:(change (2 ^ 12) with 4096; lia)) as Hf.
  destruct (Z.to_nat (Z.log2 cid)) as [| [| [| f]]]; [cbn in Hf; lia .. |].
  rewrite hex_digits_large by lia.
  rewrite hex_digits_large by (apply Z.div_le_lower_bound; lia).
  rewrite hex_digits_large
    by (rewrite Z.div_div by lia; apply Z.div_le_lower_bound; lia).
  rewrite hex_digits_small
    by (rewrite !Z.div_div by lia; apply Z.div_lt_upper_bound; lia).
  rewrite !Z.div_div by lia.
  reflexivity.
Qed.

Lemma manu_entry_16bit (e : Z * list Byte.byte) :
  0 <= fst e < 2 ^ 16 -> manu_entry e = manu_entry_spec e.
Proof.
  intros H. unfold manu_entry, manu_entry_spec.
  rewrite (format_x6_16bit _ H). reflexivity.
Qed.

End Formatter.

Example fmt_manu_apple :
  _fmt_manu_data (Some [(76, [Byte.x02; Byte.x15; Byte.xab]); (6, [])])
  = "0x004c:0215ab,0x0006:".
Proof. reflexivity. Qed.

Example fmt_services_ex :
  _fmt_services (Some ["180f"; "180a"; "fe9f"]) = "180a,180f,fe9f".
Proof. reflexivity. Qed.

Example fmt_x6_ex :
  format_x6 0 = "0x0000" /\ format_x6 65535 = "0xffff" /\
  format_x6 65536 = "0x10000" /\ format_x6 (-1) = "-0x001".
Proof. repeat split; reflexivity. Qed.

Example str_int_ex :
  PyStr.str_int (-70) = "-70" /\ PyStr.str_int 0 = "0" /\ PyStr.rjust 4 "-70" = " -70".
Proof. repeat split; reflexivity. Qed.

(** C8: an absent or empty manufacturer-data mapping is rendered as
    ["-"]; a non-empty mapping whose company ids are 16-bit values is
    rendered entry by entry, in iteration order and joined by commas, each
    entry being [0x], the four lower-case hexadecimal digits of the company
    id, a colon, and two lower-case hexadecimal digits per payload byte. *)
Theorem fmt_manu_data_16bit (items : list (Z * list Byte.byte)) :
  items <> [] ->
  Forall (fun e => 0 <= fst e < 2 ^ 16) items ->
  _fmt_manu_data None = "-" /\
  _fmt_manu_data (Some []) = "-" /\
  _fmt_manu_data (Some items) = PyStr.join "," (map manu_entry_spec items) /\
  Forall (fun e =>
            String.length (hex4 (fst e)) = 4%nat /\
            hex_value (hex4 (fst e)) = fst e /\
            string_forall is_lower_hex (hex4 (fst e)) = true /\
            String.length (bytes_hex (snd e)) = (2 * List.length (snd e))%nat /\
            string_forall is_lower_hex (bytes_hex (snd e)) = true) items.
Proof.
  intros Hne Hids. repeat split.
  - destruct items as [| e items]; [congruence |].
    unfold _fmt_manu_data. f_equal.
    apply map_ext_Forall.
    eapply Forall_impl; [exact Hids |].
    intros a Ha. apply manu_entry_16bit, Ha.
  - eapply Forall_impl; [exact Hids |].
    intros e He.
    repeat split;
      auto using hex4_value, hex4_lower, bytes_hex_length, bytes_hex_lower.
Qed.

Lemma fmt_manu_data_16bit_witness :
  _fmt_manu_data (Some [(76, [Byte.x02; Byte.x15]); (65535, [Byte.xff])])
  = "0x004c:0215,0xffff:ff".
Proof.
  pose proof (fmt_manu_data_16bit
                [(76, [Byte.x02; Byte.x15]); (65535, [Byte.xff])]) as H.
  destruct H as (_ & _ & H & _).
  - discriminate.
  - repeat constructor; cbn; lia.
  - rewrite H. reflexivity.
Defined.

(** ** Service identifiers *)

Lemma sorted_perm_eq (l l' : list string) :
  l ≡ₚ l' -> PyStr.sorted l = PyStr.sorted l'.
Proof.
  intros Hp. unfold PyStr.sorted.
  apply (StronglySorted_unique String.le).
  - apply StronglySorted_merge_sort; apply _.
  - apply StronglySorted_merge_sort; apply _.
  - rewrite !merge_sort_Permutation. exact Hp.
Qed.

(** C7: an absent or empty collection of service identifiers is rendered
    as ["-"]; a non-empty one as the comma-joined identifiers in ascending
    lexicographic order, a rearrangement of the input, and the result is
    the same for every permutation of the input. *)
Theorem fmt_services_sorted (l l' : list string) :
  l <> [] ->
  l ≡ₚ l' ->
  _fmt_services None = "-" /\
  _fmt_services (Some []) = "-" /\
  (exists out,
      _fmt_services (Some l) = PyStr.join "," out /\
      StronglySorted String.le out /\ out ≡ₚ l) /\
  _fmt_services (Some l') = _fmt_services (Some l).
Proof.
  intros Hne Hp.
  assert (Hl : _fmt_services (Some l) = PyStr.join "," (PyStr.sorted l))
    by (destruct l; [congruence | reflexivity]).
  assert (Hl' : _fmt_services (Some l') = PyStr.join "," (PyStr.sorted l')).
  { destruct l' as [| x r]; [| reflexivity].
    apply Permutation_nil_r in Hp. congruence. }
  repeat split.
  - exists (PyStr.sorted l). repeat split.
    + exact Hl.
    + apply StronglySorted_merge_sort; apply _.
    + apply merge_sort_Permutation.
  - rewrite Hl, Hl'. f_equal. symmetry. apply sorted_perm_eq, Hp.
Qed.

Lemma fmt_services_sorted_witness :
  _fmt_services (Some ["180f"; "fe9f"; "180a"]) =
  _fmt_services (Some ["fe9f"; "180f"; "180a"]).
Proof.
  apply (fmt_services_sorted ["fe9f"; "180f"; "180a"] ["180f"; "fe9f"; "180a"]).
  - discriminate.
  - apply perm_swap.
Defined.

(** ** Filter evaluator *)

Section Filter.







End Filter.


(** ** Detection pipeline *)

Ltac unfold_eff :=
  unfold on_detect, print_detection, CsvWriter_write, CsvWriter_close,
    CsvWriter_open, writerow, os_write, os_close, os_tell, os_open_append,
    _now_iso, print, emit, modify, get, bind, ret, raise, block in *.

Section Pipeline.

Variables filter_name filter_address : option string.

Lemma on_detect_rejected (device : BLEDevice) (adv : AdvertisementData) (s : State) :
  accepts filter_name filter_address (resolve_name device adv) (resolve_addr device)
    = false ->
  on_detect filter_name filter_address device adv s = (Done tt, s).
Proof.
  unfold accepts, on_detect. intros H.
  destruct (name_rejected _ _); [reflexivity |].
  destruct (address_rejected _ _); [reflexivity | discriminate].
Qed.

Lemma on_detect_absent_rssi (device : BLEDevice) (adv : AdvertisementData) (s : State) :
  accepts filter_name filter_address (resolve_name device adv) (resolve_addr device)
    = true ->
  resolve_rssi device adv = None ->
  on_detect filter_name filter_address device adv s =
  (Raised TypeError,
   set_ticks (S (ticks s))
     (set_last_seen (<[resolve_addr device := None]> (last_seen s)) s)).
Proof.
  unfold accepts, on_detect. intros H Hr.
  destruct (name_rejected _ _); [discriminate |].
  destruct (address_rejected _ _); [discriminate |].
  rewrite Hr. reflexivity.
Qed.

Lemma on_detect_last_seen (device : BLEDevice) (adv : AdvertisementData) (s : State) :
  last_seen (snd (on_detect filter_name filter_address device adv s)) =
  if event_accepted filter_name filter_address (device, adv)
  then <[resolve_addr device := resolve_rssi device adv]> (last_seen s)
  else last_seen s.
Proof.
  unfold event_accepted, accepts, on_detect. cbn [fst snd].
  destruct (name_rejected _ _); [reflexivity |].
  destruct (address_rejected _ _); [reflexivity |].
  unfold_eff. cbn.
  destruct (resolve_rssi device adv); [| reflexivity].
  cbn. destruct (_writer (csvw s)) as [w |]; [| reflexivity].
  cbn. destruct (handles s !! w); reflexivity.
Qed.

Lemma on_detect_not_blocked (device : BLEDevice) (adv : AdvertisementData) (s : State) :
  fst (on_detect filter_name filter_address device adv s) <> Blocked.
Proof.
  unfold on_detect.
  destruct (name_rejected _ _); [discriminate |].
  destruct (address_rejected _ _); [discriminate |].
  unfold_eff. cbn.
  destruct (resolve_rssi device adv); [| discriminate].
  cbn. destruct (_writer (csvw s)) as [w |]; [| discriminate].
  cbn. destruct (handles s !! w); discriminate.
Qed.

Lemma on_detect_with_rssi (device : BLEDevice) (adv : AdvertisementData)
    (r : Z) (s : State) :
  sink_ok s ->
  fst (on_detect filter_name filter_address device (with_rssi r adv) s) = Done tt.
Proof.
  unfold sink_ok, on_detect. intros Hok.
  destruct (name_rejected _ _); [reflexivity |].
  destruct (address_rejected _ _); [reflexivity |].
  unfold_eff. cbn.
  destruct (_writer (csvw s)) as [w |]; [| reflexivity].
  cbn. destruct Hok as [p Hp]. rewrite Hp. reflexivity.
Qed.

End Pipeline.

(** C4: an event rejected by the filter leaves the whole state as it
    was: nothing is printed, nothing is written to the sink, and the
    last-seen map is untouched. *)
Theorem rejected_no_effect (filter_name filter_address : option string)
    (device : BLEDevice) (adv : AdvertisementData) (s : State) :
  accepts filter_name filter_address (resolve_name device adv) (resolve_addr device)
    = false ->
  let r := on_detect filter_name filter_address device adv s in
  fst r = Done tt /\ snd r = s /\
  trace (snd r) = trace s /\ files (snd r) = files s /\
  last_seen (snd r) = last_seen s.
Proof.
  intros H r. subst r. rewrite on_detect_rejected by exact H.
  repeat split.
Qed.

Lemma rejected_no_effect_witness :
  let s := initial_state ∅ (fun _ => "2026-01-01T00:00:00+00:00") in
  let r := on_detect (Some "beacon") None
             (mkDevice (Some "AA:BB:CC:DD:EE:FF") None (Some "Thermostat") None)
             (mkAdv None (Some (-61)) None None None) s in
  fst r = Done tt /\ snd r = s /\
  trace (snd r) = trace s /\ files (snd r) = files s /\
  last_seen (snd r) = last_seen s.
Proof.
  apply (rejected_no_effect (Some "beacon") None
           (mkDevice (Some "AA:BB:CC:DD:EE:FF") None (Some "Thermostat") None)
           (mkAdv None (Some (-61)) None None None)).
  reflexivity.
Defined.

(** C10: an accepted event whose signal strength is absent both in the
    advertisement and on the device makes the handler raise [TypeError]
    when the console line is formatted, whereas the same event with a
    signal strength is handled without raising, and an absent name, TX
    power and manufacturer data are then printed as ["-"]. *)
Theorem absent_rssi_raises (filter_name filter_address : option string)
    (device : BLEDevice) (adv : AdvertisementData) (s : State) :
  accepts filter_name filter_address (resolve_name device adv) (resolve_addr device)
    = true ->
  resolve_rssi device adv = None ->
  fst (on_detect filter_name filter_address device adv s) = Raised TypeError /\
  (forall r, sink_ok s ->
     fst (on_detect filter_name filter_address device (with_rssi r adv) s) = Done tt) /\
  (forall r,
     dev_name device = None -> local_name adv = None -> tx_power adv = None ->
     manufacturer_data adv = None -> service_uuids adv = None ->
     In (Printed
           ("[" +:+ now_iso s (ticks s) +:+ "] " +:+
            PyStr.ljust 20 (resolve_addr device) +:+
            " RSSI=" +:+ PyStr.rjust 4 (PyStr.str_int r) +:+
            " dBm  TX=  -  Name=-  Manu=-  Services=-"))
        (trace (snd (on_detect filter_name filter_address device
                       (with_rssi r adv) s)))).
Proof.
  intros Hacc Hr. split; [| split].
  - rewrite on_detect_absent_rssi by assumption. reflexivity.
  - intros r Hok. apply on_detect_with_rssi, Hok.
  - intros r Hn Hl Ht Hm Hu.
    unfold accepts, resolve_name in Hacc. unfold on_detect, resolve_name.
    cbn [with_rssi local_name]. rewrite Hn, Hl in *.
    destruct (name_rejected _ _); [discriminate |].
    destruct (address_rejected _ _); [discriminate |].
    unfold_eff. cbn. rewrite ?Hl, Ht, Hm, Hu. cbn.
    destruct (_writer (csvw s)) as [w |]; cbn.
    + destruct (handles s !! w); cbn; rewrite !in_app_iff; cbn.
      * left. right. left. reflexivity.
      * right. left. reflexivity.
    + rewrite in_app_iff. cbn. right. left. reflexivity.
Qed.

Lemma absent_rssi_raises_witness :
  fst (on_detect None None
         (mkDevice (Some "AA:BB:CC:DD:EE:FF") None (Some "Tag") None)
         (mkAdv None None None None None)
         (initial_state ∅ (fun _ => "2026-01-01T00:00:00+00:00")))
  = Raised TypeError.
Proof.
  exact (proj1 (absent_rssi_raises None None
                  (mkDevice (Some "AA:BB:CC:DD:EE:FF") None (Some "Tag") None)
                  (mkAdv None None None None None)
                  (initial_state ∅ (fun _ => "2026-01-01T00:00:00+00:00"))
                  eq_refl eq_refl)).
Defined.

(** ** The last-seen map *)

Section LastSeen.

Variables filter_name filter_address : option string.

Abbreviation handler := (on_detect filter_name filter_address).
Abbreviation reflects' := (reflects filter_name filter_address).
Abbreviation accepted := (accepted_events filter_name filter_address).

Lemma latest_rssi_snoc (a : string) (l : list (BLEDevice * AdvertisementData))
    (ev : BLEDevice * AdvertisementData) :
  latest_rssi a (l ++ [ev]) =
  if String.eqb (event_addr ev) a
  then Some (resolve_rssi (fst ev) (snd ev))
  else latest_rssi a l.
Proof.
  induction l as [| x l IH]; cbn [app latest_rssi].
  - reflexivity.
  - rewrite IH. destruct (String.eqb (event_addr ev) a); [reflexivity |].
    reflexivity.
Qed.

Lemma latest_rssi_is_Some (a : string) (l : list (BLEDevice * AdvertisementData)) :
  is_Some (latest_rssi a l) <-> a ∈ map event_addr l.
Proof.
  induction l as [| x l IH]; cbn [map latest_rssi].
  - rewrite is_Some_alt. split; [contradiction | intros H; inversion H].
  - rewrite elem_of_cons, <- IH.
    destruct (latest_rssi a l) as [r |].
    + split; [right | intros _]; eauto.
    + destruct (String.eqb_spec (event_addr x) a) as [-> | Hne].
      * split; [left | intros _]; eauto.
      * split; [intros [? [=]] | intros [-> | [? [=]]]; congruence].
Qed.

Lemma reflects_step (h : list (BLEDevice * AdvertisementData))
    (device : BLEDevice) (adv : AdvertisementData) (s : State) :
  reflects' h s ->
  reflects' (h ++ [(device, adv)]) (snd (handler device adv s)).
Proof.
  intros Hinv a. rewrite on_detect_last_seen.
  unfold accepted_events. rewrite List.filter_app. cbn [List.filter].
  destruct (event_accepted _ _ (device, adv)).
  - rewrite latest_rssi_snoc. unfold event_addr. cbn [fst snd].
    destruct (String.eqb_spec (resolve_addr device) a) as [-> | Hne].
    + apply lookup_insert_eq.
    + rewrite lookup_insert_ne by exact Hne. apply Hinv.
  - rewrite app_nil_r. apply Hinv.
Qed.

Lemma deliver_handler (device : BLEDevice) (adv : AdvertisementData) (s : State) :
  fst (deliver (handler device adv) s) = Done tt /\
  last_seen (snd (deliver (handler device adv) s)) =
  last_seen (snd (handler device adv s)).
Proof.
  unfold deliver.
  pose proof (on_detect_not_blocked filter_name filter_address device adv s) as Hnb.
  destruct (handler device adv s) as [[[] | e |] s']; cbn in *;
    [split; reflexivity | split; reflexivity | congruence].
Qed.

Lemma deliver_all_reflects (evs h : list (BLEDevice * AdvertisementData)) (s : State) :
  reflects' h s ->
  fst (deliver_all handler evs s) = Done tt /\
  reflects' (h ++ evs) (snd (deliver_all handler evs s)).
Proof.
  revert h s. induction evs as [| [device adv] evs IH]; intros h s Hinv.
  - cbn. rewrite app_nil_r. split; [reflexivity | exact Hinv].
  - cbn [deliver_all]. unfold bind.
    destruct (deliver_handler device adv s) as [Hd Hl].
    destruct (deliver (handler device adv) s) as [r s1] eqn:E.
    cbn in Hd, Hl. subst r.
    replace (h ++ (device, adv) :: evs)%list with ((h ++ [(device, adv)]) ++ evs)%list
      by (rewrite <- app_assoc; reflexivity).
    apply IH.
    intros a. unfold reflects in *. rewrite Hl.
    apply (reflects_step h device adv s Hinv).
Qed.

Lemma remove_dups_length (l : list string) :
  (List.length (remove_dups l) <= List.length l)%nat.
Proof.
  induction l as [| x l IH]; cbn; [lia |].
  destruct (decide_rel elem_of x l); cbn; lia.
Qed.

Lemma list_to_set_remove_dups_eq (l : list string) :
  (list_to_set (remove_dups l) : gset string) = list_to_set l.
Proof.
  apply set_eq. intros x.
  rewrite !elem_of_list_to_set. apply elem_of_remove_dups.
Qed.

End LastSeen.

(** C5: starting from an empty map, after any sequence of detections
    the last-seen map holds, for each address, the signal strength of the
    last accepted detection of that address; it has exactly one entry per
    distinct accepted address, so no more entries than accepted
    detections; and every single handler invocation keeps the map in
    agreement with the history of events. *)
Theorem last_seen_latest (filter_name filter_address : option string)
    (evs : list (BLEDevice * AdvertisementData)) (s : State) :
  last_seen s = ∅ ->
  let s' := snd (deliver_all (on_detect filter_name filter_address) evs s) in
  let acc := accepted_events filter_name filter_address evs in
  (forall a, last_seen s' !! a = latest_rssi a acc) /\
  dom (last_seen s') = list_to_set (map event_addr acc) /\
  size (last_seen s') = List.length (remove_dups (map event_addr acc)) /\
  (size (last_seen s') <= List.length acc)%nat /\
  (forall h device adv s0,
      reflects filter_name filter_address h s0 ->
      reflects filter_name filter_address (h ++ [(device, adv)])
        (snd (on_detect filter_name filter_address device adv s0))).
Proof.
  intros Hempty s' acc.
  assert (Hlook : forall a, last_seen s' !! a = latest_rssi a acc).
  { assert (H0 : reflects filter_name filter_address [] s).
    { intros a. rewrite Hempty. apply lookup_empty. }
    apply (deliver_all_reflects filter_name filter_address evs [] s H0). }
  assert (Hdom : dom (last_seen s') = list_to_set (map event_addr acc)).
  { apply set_eq. intros a.
    rewrite elem_of_dom, Hlook, latest_rssi_is_Some, elem_of_list_to_set.
    reflexivity. }
  assert (Hsize : size (last_seen s') = List.length (remove_dups (map event_addr acc))).
  { rewrite <- size_dom, Hdom, <- list_to_set_remove_dups_eq.
    apply size_list_to_set, NoDup_remove_dups. }
  repeat split; try assumption.
  - rewrite Hsize.
    etransitivity; [apply remove_dups_length |].
    rewrite length_map. reflexivity.
  - intros h device adv s0. apply reflects_step.
Qed.

(** ** Rows of the log *)

Section CsvRows.

Lemma append_cons (c : ascii) (a b : string) :
  String c a +:+ b = String c (a +:+ b).
Proof. reflexivity. Qed.

Lemma append_nil_r (a : string) : a +:+ EmptyString = a.
Proof.
  induction a as [| c a IH]; [reflexivity |].
  rewrite append_cons, IH. reflexivity.
Qed.

Lemma append_assoc (a b c : string) : (a +:+ b) +:+ c = a +:+ (b +:+ c).
Proof.
  induction a as [| x a IH]; [reflexivity |].
  rewrite !append_cons, IH. reflexivity.
Qed.

Lemma records_plain (f rest : string) (q : bool) :
  needs_quotes f = false ->
  csv_records_from q (f +:+ rest) = csv_records_from q rest.
Proof.
  induction f as [| c f IH]; intros Hq; [reflexivity |].
  cbn [needs_quotes] in Hq. apply orb_false_iff in Hq as [Hc Hf].
  unfold csv_special in Hc.
  repeat (apply orb_false_iff in Hc as [Hc ?]).
  rewrite append_cons. cbn [csv_records_from].
  replace (Ascii.eqb c dquote) with false by congruence.
  replace (Ascii.eqb c lf) with false by congruence.
  cbn [andb]. apply IH, Hf.
Qed.

Lemma records_doubled (f rest : string) :
  csv_records_from true (double_quotes f +:+ rest) = csv_records_from true rest.
Proof.
  induction f as [| c f IH]; [reflexivity |].
  cbn [double_quotes].
  destruct (Ascii.eqb c dquote) eqn:Hc.
  - rewrite !append_cons. cbn [csv_records_from].
    change (Ascii.eqb dquote dquote) with true. cbn [negb]. exact IH.
  - rewrite append_cons. cbn [csv_records_from]. rewrite Hc.
    rewrite andb_false_r. exact IH.
Qed.

Lemma records_field (f rest : string) :
  csv_records_from false (csv_field f +:+ rest) = csv_records_from false rest.
Proof.
  unfold csv_field. destruct (needs_quotes f) eqn:Hq.
  - rewrite append_cons, append_assoc. cbn [csv_records_from].
    change (Ascii.eqb dquote dquote) with true. cbn [negb].
    rewrite records_doubled, append_cons. cbn [csv_records_from].
    change (Ascii.eqb dquote dquote) with true. reflexivity.
  - apply records_plain, Hq.
Qed.

Lemma records_join (fields : list string) (rest : string) :
  csv_records_from false (PyStr.join "," (map csv_field fields) +:+ rest) =
  csv_records_from false rest.
Proof.
  unfold PyStr.join.
  induction fields as [| f fields IH]; [reflexivity |].
  destruct fields as [| g fields].
  - cbn [map String.concat]. apply records_field.
  - change (String.concat "," (map csv_field (f :: g :: fields)))
      with (csv_field f +:+ "," +:+ String.concat "," (map csv_field (g :: fields))).
    rewrite !append_assoc, records_field.
    rewrite append_cons. cbn [csv_records_from].
    exact IH.
Qed.

Lemma records_row (fields : list string) (rest : string) :
  csv_records_from false (csv_row fields +:+ rest) =
  S (csv_records_from false rest).
Proof.
  unfold csv_row. rewrite append_assoc, records_join. reflexivity.
Qed.


End CsvRows.

(** ** Log sink *)

Section Sink.

Lemma CsvWriter_open_spec (s : State) (path : string) :
  _path (csvw s) = Some path -> path <> "" ->
  files s !! path <> Some NoAccess ->
  exists s1,
    CsvWriter_open s = (Done tt, s1) /\
    csvw s1 = mkCsvWriter (Some path) (Some (next_fd s)) (Some (next_fd s)) /\
    handles s1 = <[next_fd s := path]> (handles s) /\
    files s1 !! path =
      Some (File (if (String.length (content_of s path) =? 0)%nat
                  then csv_row header else content_of s path)) /\
    trace s1 =
      (trace s ++ FileOpened path (next_fd s) ::
         (if (String.length (content_of s path) =? 0)%nat
          then [FileWritten (next_fd s) (csv_row header)] else []))%list /\
    last_seen s1 = last_seen s /\ scanner_active s1 = scanner_active s.
Proof.
  intros Hp Hne Hacc.
  unfold CsvWriter_open. unfold bind at 1, get at 1. cbn match. rewrite Hp.
  destruct path as [| c0 path0]; [congruence |].
  set (path := String c0 path0) in *.
  unfold content_of.
  destruct (files s !! path) as [[c |] |] eqn:Hf; [| congruence |].
  - unfold_eff. cbn. rewrite Hf. cbn. rewrite lookup_insert_eq. cbn.
    unfold content_of. cbn. rewrite Hf.
    destruct (String.length c =? 0)%nat eqn:Hlen.
    + cbn. rewrite lookup_insert_eq. cbn.
      eexists. split; [reflexivity |]. cbn.
      rewrite Hp, lookup_insert_eq.
      unfold content_of. cbn. rewrite Hf.
      destruct c; [| discriminate].
      rewrite <- app_assoc. repeat split.
    + eexists. split; [reflexivity |]. cbn. rewrite Hp, Hf. repeat split.
  - unfold_eff. cbn. rewrite Hf. cbn. rewrite lookup_insert_eq. cbn.
    unfold content_of. cbn. rewrite lookup_insert_eq. cbn.
    rewrite lookup_insert_eq. cbn.
    eexists. split; [reflexivity |]. cbn.
    rewrite Hp, lookup_insert_eq.
    unfold content_of. cbn. rewrite lookup_insert_eq.
    rewrite <- app_assoc. repeat split.
Qed.

Lemma CsvWriter_open_inert (s : State) :
  PyStr.truthy (_path (csvw s)) = false -> CsvWriter_open s = (Done tt, s).
Proof.
  intros H. unfold CsvWriter_open, bind, get. cbn.
  destruct (_path (csvw s)) as [[| c p] |]; [reflexivity | discriminate | reflexivity].
Qed.

Lemma CsvWriter_write_spec (s : State) (w : nat) (path : string)
    (ts addr : string) (name : option string) (r tx : option Z)
    (manu : option (list (Z * list Byte.byte))) (uu : option (list string)) :
  _writer (csvw s) = Some w -> handles s !! w = Some path ->
  CsvWriter_write ts addr name r tx manu uu s =
  (Done tt,
   set_trace (trace s ++ [FileWritten w (csv_row (detection_row ts addr name r tx manu uu))])
     (set_files
        (<[path := File (content_of s path +:+
                         csv_row (detection_row ts addr name r tx manu uu))]> (files s))
        s)).
Proof.
  intros Hw Hh. unfold_eff. cbn. rewrite Hw. cbn. rewrite Hh. reflexivity.
Qed.

Lemma CsvWriter_write_closed (s : State)
    (ts addr : string) (name : option string) (r tx : option Z)
    (manu : option (list (Z * list Byte.byte))) (uu : option (list string)) :
  _writer (csvw s) = None ->
  CsvWriter_write ts addr name r tx manu uu s = (Done tt, s).
Proof. intros Hw. unfold_eff. cbn. rewrite Hw. reflexivity. Qed.

Lemma CsvWriter_close_closed (s : State) :
  _fh (csvw s) = None -> CsvWriter_close s = (Done tt, s).
Proof. intros H. unfold_eff. cbn. rewrite H. reflexivity. Qed.

Lemma CsvWriter_close_spec (s : State) (fd : nat) (path : string) :
  _fh (csvw s) = Some fd -> handles s !! fd = Some path ->
  CsvWriter_close s =
  (Done tt,
   set_csvw (mkCsvWriter (_path (csvw s)) None None)
     (set_trace (trace s ++ [FileClosed fd])
        (set_handles (delete fd (handles s)) s))).
Proof.
  intros Hf Hh. unfold_eff. cbn. rewrite Hf. cbn. rewrite Hh. reflexivity.
Qed.

End Sink.



(** C9: on a sink without a target path [open], [write] and [close] do
    nothing; on a sink that is not open, [write] and [close] do nothing;
    [close] on an open sink releases its handle, once, after which [close]
    and [write] do nothing and do not raise. *)
Theorem sink_noops (s : State)
    (ts addr : string) (name : option string) (r tx : option Z)
    (manu : option (list (Z * list Byte.byte))) (uu : option (list string)) :
  let write := CsvWriter_write ts addr name r tx manu uu in
  (forall path, PyStr.truthy path = false ->
     let s0 := set_csvw (CsvWriter_init path) s in
     CsvWriter_open s0 = (Done tt, s0) /\
     write s0 = (Done tt, s0) /\
     CsvWriter_close s0 = (Done tt, s0)) /\
  (_fh (csvw s) = None -> _writer (csvw s) = None ->
     write s = (Done tt, s) /\ CsvWriter_close s = (Done tt, s)) /\
  (forall fd path, _fh (csvw s) = Some fd -> handles s !! fd = Some path ->
     let s' := snd (CsvWriter_close s) in
     fst (CsvWriter_close s) = Done tt /\
     _fh (csvw s') = None /\ _writer (csvw s') = None /\
     handles s' = delete fd (handles s) /\
     files s' = files s /\
     trace s' = (trace s ++ [FileClosed fd])%list /\
     CsvWriter_close s' = (Done tt, s') /\
     write s' = (Done tt, s')).
Proof.
  intros write. split; [| split].
  - intros path Hpath s0. split; [| split].
    + apply CsvWriter_open_inert. exact Hpath.
    + apply CsvWriter_write_closed. reflexivity.
    + apply CsvWriter_close_closed. reflexivity.
  - intros Hf Hw. split.
    + apply CsvWriter_write_closed, Hw.
    + apply CsvWriter_close_closed, Hf.
  - intros fd path Hf Hh s'. subst s'.
    rewrite (CsvWriter_close_spec s fd path Hf Hh). cbn [fst snd].
    do 6 (split; [reflexivity |]). split.
    + apply CsvWriter_close_closed. reflexivity.
    + apply CsvWriter_write_closed. reflexivity.
Qed.

Lemma last_seen_latest_witness :
  let d1 := mkDevice (Some "AA:BB:CC:DD:EE:01") None (Some "Tag") None in
  let d2 := mkDevice (Some "AA:BB:CC:DD:EE:02") None None None in
  let adv r := mkAdv None (Some r) None None None in
  let evs := [(d1, adv (-70)); (d2, adv (-60)); (d1, adv (-48))] in
  let s' := snd (deliver_all (on_detect None None) evs
                   (initial_state ∅ (fun _ => "2026-01-01T00:00:00+00:00"))) in
  last_seen s' !! "AA:BB:CC:DD:EE:01" = Some (Some (-48)) /\
  size (last_seen s') = 2%nat.
Proof.
  intros d1 d2 adv evs s'.
  destruct (last_seen_latest None None evs
              (initial_state ∅ (fun _ => "2026-01-01T00:00:00+00:00")) eq_refl)
    as (Hlook & _ & Hsize & _).
  split.
  - exact (Hlook "AA:BB:CC:DD:EE:01").
  - exact Hsize.
Defined.

(** ** Scan life cycle *)

Section Keeps.

Variable P : effect -> bool.
Hypothesis handler_P : forall e, from_handler e = true -> P e = true.

Lemma extends_refl (s : State) : extends P s s.
Proof. exists []. rewrite app_nil_r. split; reflexivity. Qed.

Lemma extends_trans (s1 s2 s3 : State) :
  extends P s1 s2 -> extends P s2 s3 -> extends P s1 s3.
Proof.
  intros (t1 & H1 & F1) (t2 & H2 & F2). exists (t1 ++ t2)%list.
  rewrite H2, H1, <- app_assoc, forallb_app, F1, F2. split; reflexivity.
Qed.

Lemma keeps_refl (s : State) : keeps P s s.
Proof. split; [apply extends_refl | split; reflexivity]. Qed.

Lemma keeps_trans (s1 s2 s3 : State) :
  keeps P s1 s2 -> keeps P s2 s3 -> keeps P s1 s3.
Proof.
  intros (E1 & C1 & H1) (E2 & C2 & H2).
  split; [eapply extends_trans; eassumption | split; congruence].
Qed.

Lemma keeps_emit (e : effect) (s : State) :
  P e = true -> keeps P s (snd (emit e s)).
Proof.
  intros He. split; [| split; reflexivity].
  exists [e]. cbn. rewrite He. split; reflexivity.
Qed.

Lemma keeps_silent (s s' : State) :
  trace s' = trace s -> csvw s' = csvw s -> handles s' = handles s ->
  keeps P s s'.
Proof.
  intros Ht Hc Hh. split; [| split; assumption].
  exists []. rewrite app_nil_r. split; [exact Ht | reflexivity].
Qed.

Lemma keeps_on_detect (fn fa : option string) (device : BLEDevice)
    (adv : AdvertisementData) (s : State) :
  keeps P s (snd (on_detect fn fa device adv s)).
Proof.
  unfold on_detect.
  destruct (name_rejected _ _); [apply keeps_refl |].
  destruct (address_rejected _ _); [apply keeps_refl |].
  unfold_eff. cbn.
  destruct (resolve_rssi device adv) as [r |]; cbn.
  - destruct (_writer (csvw s)) as [w |]; cbn.
    + destruct (handles s !! w) as [p |]; cbn.
      * split; [| split; reflexivity]. cbn.
        eexists [Printed _; FileWritten _ _]. rewrite <- app_assoc.
        split; [reflexivity |]. cbn. rewrite !handler_P by reflexivity. reflexivity.
      * split; [| split; reflexivity]. cbn.
        eexists [Printed _]. 
        split; [reflexivity |]. cbn. rewrite !handler_P by reflexivity. reflexivity.
    + split; [| split; reflexivity]. cbn.
      eexists [Printed _]. 
      split; [reflexivity |]. cbn. rewrite !handler_P by reflexivity. reflexivity.
  - apply keeps_silent; reflexivity.
Qed.

Lemma keeps_deliver (cb : M unit) (s : State) :
  keeps P s (snd (cb s)) -> keeps P s (snd (deliver cb s)).
Proof.
  unfold deliver. destruct (cb s) as [[[] | e |] s1]; cbn; intros H; try exact H.
  eapply keeps_trans; [exact H |].
  apply keeps_emit, handler_P. reflexivity.
Qed.

Lemma deliver_done (cb : M unit) (s : State) :
  fst (cb s) <> Blocked -> fst (deliver cb s) = Done tt.
Proof.
  unfold deliver. destruct (cb s) as [[[] | e |] s1]; cbn; congruence.
Qed.

Lemma deliver_all_done (fn fa : option string)
    (evs : list (BLEDevice * AdvertisementData)) (s : State) :
  fst (deliver_all (on_detect fn fa) evs s) = Done tt /\
  keeps P s (snd (deliver_all (on_detect fn fa) evs s)).
Proof.
  revert s. induction evs as [| [d a] evs IH]; intros s.
  - split; [reflexivity | apply keeps_refl].
  - cbn [deliver_all]. unfold bind.
    pose proof (deliver_done (on_detect fn fa d a) s
                  (on_detect_not_blocked fn fa d a s)) as Hd.
    pose proof (keeps_deliver (on_detect fn fa d a) s
                  (keeps_on_detect fn fa d a s)) as Hk.
    destruct (deliver (on_detect fn fa d a) s) as [r s1]. cbn in Hd, Hk. subst r.
    destruct (IH s1) as [Hdone Hkeep]. split; [exact Hdone |].
    eapply keeps_trans; eassumption.
Qed.

End Keeps.

Section Session.

Variable P : effect -> bool.
Variables filter_name filter_address : option string.

Abbreviation handler := (on_detect filter_name filter_address).

Lemma before_teardown_handler (armed : bool) :
  before_teardown armed P -> forall e, from_handler e = true -> P e = true.
Proof.
  intros HP e He. specialize (HP e). destruct e; try discriminate; exact HP.
Qed.

Lemma suspended_keeps (timeout : option spec_float)
    (evs : list (Time * env_event)) (s : State) :
  before_teardown (match timeout with Some _ => true | None => false end) P ->
  keeps P s (snd (suspended handler timeout evs s)).
Proof.
  intros HP. pose proof (before_teardown_handler _ HP) as Hh.
  revert s. induction evs as [| [t ev] evs IH]; intros s.
  - apply keeps_refl.
  - cbn [suspended]. destruct ev as [d a | | | e].
    + unfold bind.
      pose proof (deliver_done (handler d a) s
                    (on_detect_not_blocked _ _ d a s)) as Hd.
      pose proof (keeps_deliver P Hh (handler d a) s
                    (keeps_on_detect P Hh _ _ d a s)) as Hk.
      destruct (deliver (handler d a) s) as [r s1]. cbn in Hd, Hk. subst r.
      eapply keeps_trans; [exact Hk | apply IH].
    + unfold _request_stop, bind, modify. cbn.
      split; [| split; reflexivity].
      exists [Woke ByStopEvent t]. cbn.
      rewrite (HP (Woke ByStopEvent t)). split; reflexivity.
    + destruct timeout as [d |].
      * unfold bind, raise.
        pose proof (keeps_emit P (Woke ByTimer t) s (HP (Woke ByTimer t) eq_refl)) as Hk.
        destruct (emit (Woke ByTimer t) s) as [[[] | |] s1]; exact Hk.
      * apply IH.
    + unfold bind, raise.
      pose proof (keeps_emit P (Woke (ByException e) t) s (HP (Woke (ByException e) t))) as Hk.
      destruct (emit (Woke (ByException e) t) s) as [[[] | |] s1]; exact Hk.
Qed.



End Session.

Section Shape.

Variable P : effect -> bool.
Variables filter_name filter_address : option string.
Variable env : Env.

Abbreviation callback := (on_detect filter_name filter_address).

Lemma scan_try_keeps (duration : option spec_float) (continuous : bool) (s : State) :
  before_teardown (timer_armed continuous duration) P ->
  keeps P s (snd (scan_try duration continuous callback env s)).
Proof.
  intros HP. unfold scan_try, scanner_start.
  destruct (start_error env) as [e |]; [apply keeps_refl |].
  unfold bind at 1. unfold bind at 1, modify at 1, emit at 1, modify at 1.
  cbn [fst snd].
  set (s1 := set_trace _ _).
  assert (H1 : keeps P s s1).
  { split; [| split; reflexivity].
    exists [ScannerStarted]. cbn. rewrite (HP ScannerStarted). split; reflexivity. }
  eapply keeps_trans; [exact H1 |]. clearbody s1. clear H1.
  unfold timer_armed in HP.
  destruct (continuous && in_none_zero duration).
  - unfold stop_event_wait, bind, get. cbn.
    destruct (stop_event s1); [apply keeps_refl |].
    apply suspended_keeps. exact HP.
  - assert (Hw : forall m : M unit,
               snd (except_timeout m s1) = snd (m s1)).
    { intros m. unfold except_timeout.
      destruct (m s1) as [[[] | [] |] s2]; reflexivity. }
    rewrite Hw. unfold wait_for_stop_event, bind, get. cbn.
    destruct (stop_event s1); [apply keeps_refl |].
    apply suspended_keeps.
    destruct duration as [d |]; cbn in *; [| exact HP].
    destruct (float_eq_zero d); exact HP.
Qed.

Lemma scan_finally_eq (s : State) :
  (forall e, from_handler e = true -> P e = true) ->
  exists s1,
    keeps P s s1 /\
    scan_finally callback env s =
    match stop_error env with
    | Some e => (Raised e, s1)
    | None =>
        CsvWriter_close
          (set_trace (trace s1 ++ [ScannerStopped]) (set_scanner_active false s1))
    end.
Proof.
  intros Hh.
  destruct (deliver_all_done P Hh filter_name filter_address (stop_callbacks env) s)
    as [Hd Hk].
  unfold scan_finally, scanner_stop.
  unfold bind at 1. unfold bind at 1.
  destruct (deliver_all callback (stop_callbacks env) s) as [r s1].
  cbn in Hd, Hk. subst r. exists s1. split; [exact Hk |].
  destruct (stop_error env); reflexivity.
Qed.

Lemma scan_finally_raises (e : exn) (s : State) :
  (forall e, from_handler e = true -> P e = true) ->
  stop_error env = Some e ->
  fst (scan_finally callback env s) = Raised e /\
  keeps P s (snd (scan_finally callback env s)).
Proof.
  intros HP He. destruct (scan_finally_eq s HP) as (s1 & Hk & Heq).
  rewrite Heq, He. split; [reflexivity | exact Hk].
Qed.

Lemma scan_finally_completes (s : State) :
  (forall e, from_handler e = true -> P e = true) ->
  stop_error env = None ->
  (forall fd, _fh (csvw s) = Some fd ->
              _writer (csvw s) = Some fd /\ is_Some (handles s !! fd)) ->
  (_fh (csvw s) = None -> _writer (csvw s) = None) ->
  let res := scan_finally callback env s in
  fst res = Done tt /\
  scanner_active (snd res) = false /\
  _fh (csvw (snd res)) = None /\ _writer (csvw (snd res)) = None /\
  exists t0,
    forallb P t0 = true /\
    trace (snd res) =
      (trace s ++ t0 ++ ScannerStopped ::
         match _fh (csvw s) with Some fd => [FileClosed fd] | None => [] end)%list.
Proof.
  intros HP He Hopen Hclosed res. subst res.
  destruct (scan_finally_eq s HP) as (s1 & ((t0 & Ht0 & Hf0) & Hc & Hh1) & Heq).
  rewrite Heq, He. clear Heq.
  set (s2 := set_trace _ _).
  assert (Hc2 : csvw s2 = csvw s) by exact Hc.
  assert (Hh2 : handles s2 = handles s) by exact Hh1.
  assert (Ht2 : trace s2 = (trace s ++ t0 ++ [ScannerStopped])%list).
  { subst s2. cbn. rewrite Ht0, <- app_assoc. reflexivity. }
  assert (Ha2 : scanner_active s2 = false) by reflexivity.
  clearbody s2.
  destruct (_fh (csvw s)) as [fd |] eqn:Hfh.
  - destruct (Hopen fd eq_refl) as [_ [path Hpath]].
    rewrite (CsvWriter_close_spec s2 fd path) by congruence.
    cbn. repeat split; [exact Ha2 |].
    exists t0. split; [exact Hf0 |].
    rewrite Ht2, <- !app_assoc. reflexivity.
  - rewrite CsvWriter_close_closed by congruence.
    cbn. rewrite Hc2, Hfh. repeat split; [exact Ha2 | auto |].
    exists t0. split; [exact Hf0 | exact Ht2].
Qed.

End Shape.

Section Run.

Variable P : effect -> bool.
Variables filter_name filter_address : option string.
Variable env : Env.
Variable duration : option spec_float.
Variable continuous : bool.
Variable csv_path : option string.

Abbreviation cb := (on_detect filter_name filter_address).
Abbreviation session := (scan_ble duration filter_name filter_address continuous csv_path env).

Lemma register_keeps (sig : signal) (s : State) :
  P (HandlerAdded sig) = true ->
  exists s',
    except_not_implemented (add_signal_handler env sig) s = (Done tt, s') /\
    keeps P s s' /\ stop_event s' = stop_event s.
Proof.
  intros HP. unfold except_not_implemented, add_signal_handler.
  destruct (sig_supported env sig).
  - eexists. split; [reflexivity |]. split; [| reflexivity].
    apply (keeps_emit P (HandlerAdded sig) s HP).
  - eexists. split; [reflexivity |]. split; [apply keeps_refl | reflexivity].
Qed.

(** After the sink is open, [scan_ble] registers the handlers and enters
    its [try] statement. *)
Lemma scan_ble_setup (s s1 : State) :
  (forall e, from_setup e = true -> P e = true) ->
  CsvWriter_open (set_csvw (CsvWriter_init csv_path) s) = (Done tt, s1) ->
  exists sa,
    keeps P s1 sa /\ stop_event sa = false /\
    session s =
    match init_error env with
    | Some e => (Raised e, sa)
    | None =>
        try_finally (scan_try duration continuous cb env) (scan_finally cb env) sa
    end.
Proof.
  intros HP Hopen. unfold scan_ble.
  unfold bind at 1, modify at 1. cbv beta iota.
  unfold bind at 1. rewrite Hopen.
  unfold bind at 1, modify at 1. cbv beta iota.
  destruct (register_keeps SIGINT (set_stop_event false s1)
              (HP (HandlerAdded SIGINT) eq_refl))
    as (s2 & E2 & K2 & S2).
  unfold bind at 1. rewrite E2.
  destruct (register_keeps SIGTERM s2 (HP (HandlerAdded SIGTERM) eq_refl))
    as (s3 & E3 & K3 & S3).
  unfold bind at 1. rewrite E3.
  unfold bind at 1, modify at 1. cbv beta iota.
  unfold scanner_init.
  exists (set_last_seen ∅ s3). split; [| split; [| destruct (init_error env); reflexivity]].
  - eapply keeps_trans; [| eapply keeps_trans; [exact K2 |]].
    + apply keeps_silent; reflexivity.
    + eapply keeps_trans; [exact K3 |]. apply keeps_silent; reflexivity.
  - cbn. rewrite S3, S2. reflexivity.
Qed.

Lemma scan_ble_open_fails (s s1 : State) (e : exn) :
  CsvWriter_open (set_csvw (CsvWriter_init csv_path) s) = (Raised e, s1) ->
  session s = (Raised e, s1).
Proof.
  intros Hopen. unfold scan_ble.
  unfold bind at 1, modify at 1. cbv beta iota.
  unfold bind at 1. rewrite Hopen. reflexivity.
Qed.

Lemma CsvWriter_open_fails (s : State) (path : string) :
  _path (csvw s) = Some path -> path <> "" ->
  files s !! path = Some NoAccess ->
  CsvWriter_open s = (Raised OSError, s).
Proof.
  intros Hp Hne Hacc. unfold_eff. cbn. rewrite Hp.
  destruct path as [| c p]; [congruence |]. cbn. rewrite Hacc. reflexivity.
Qed.

Lemma before_teardown_weaken (b : bool) :
  before_teardown b P -> before_teardown false P.
Proof.
  intros H e. specialize (H e).
  destruct e as [| | | | | | | | [] ?]; try exact H. discriminate.
Qed.

(** The three ways [open] can go on the sink that [scan_ble] creates. *)
Lemma before_teardown_setup (armed : bool) :
  before_teardown armed P -> forall e, from_setup e = true -> P e = true.
Proof.
  intros HP e He. specialize (HP e). destruct e; try discriminate; exact HP.
Qed.

Lemma open_cases (s : State) :
  (forall e, from_setup e = true -> P e = true) ->
  let s0 := set_csvw (CsvWriter_init csv_path) s in
  (PyStr.truthy csv_path = false /\ CsvWriter_open s0 = (Done tt, s0)) \/
  (PyStr.truthy csv_path = true /\ ~ can_open csv_path s /\
   CsvWriter_open s0 = (Raised OSError, s0)) \/
  (PyStr.truthy csv_path = true /\ can_open csv_path s /\
   exists path s1,
     CsvWriter_open s0 = (Done tt, s1) /\
     csvw s1 = mkCsvWriter (Some path) (Some (next_fd s)) (Some (next_fd s)) /\
     handles s1 !! next_fd s = Some path /\
     extends P s s1).
Proof.
  intros HP s0.
  destruct (PyStr.truthy csv_path) eqn:Htruthy.
  - right. destruct csv_path as [[| c p] |] eqn:Hcsv; try discriminate.
    set (path := String c p) in *.
    destruct (files s !! path) as [[old |] |] eqn:Hf.
    + right. split; [reflexivity |]. split; [intros q [= <-] _; congruence |].
      destruct (CsvWriter_open_spec s0 path eq_refl ltac:(discriminate)
                  ltac:(cbn; congruence))
        as (s1 & Hopen & Hc & Hh & _ & Ht & _).
      exists path, s1. repeat split; try assumption.
      * rewrite Hh. apply lookup_insert_eq.
      * eexists. split; [exact Ht |].
        destruct (String.length _ =? 0)%nat; cbn;
          rewrite ?(HP (FileOpened _ _) eq_refl), ?(HP (FileWritten _ _) eq_refl); reflexivity.
    + left. split; [reflexivity |]. split.
      * intros Hcan. exact (Hcan path eq_refl ltac:(discriminate) Hf).
      * apply (CsvWriter_open_fails s0 path); [reflexivity | discriminate | exact Hf].
    + right. split; [reflexivity |]. split; [intros q [= <-] _; congruence |].
      destruct (CsvWriter_open_spec s0 path eq_refl ltac:(discriminate)
                  ltac:(cbn; congruence))
        as (s1 & Hopen & Hc & Hh & _ & Ht & _).
      exists path, s1. repeat split; try assumption.
      * rewrite Hh. apply lookup_insert_eq.
      * eexists. split; [exact Ht |].
        destruct (String.length _ =? 0)%nat; cbn;
          rewrite ?(HP (FileOpened _ _) eq_refl), ?(HP (FileWritten _ _) eq_refl); reflexivity.
  - left. split; [reflexivity |].
    apply CsvWriter_open_inert. exact Htruthy.
Qed.

(** Every run of [scan_ble] has one of two shapes: it ends or stays
    suspended before any teardown, or it goes through a whole teardown,
    which adds [teardown_trace] at the very end. *)
Lemma scan_ble_shape (s : State) :
  before_teardown (timer_armed continuous duration) P ->
  let res := session s in
  exists t0,
    forallb P t0 = true /\
    ((trace (snd res) = (trace s ++ t0)%list /\
      (fst res = Blocked \/
       exists e, fst res = Raised e /\
                 (stop_error env = Some e \/ init_error env = Some e \/
                  ~ can_open csv_path s))) \/
     (trace (snd res) = (trace s ++ t0 ++ teardown_trace csv_path s)%list /\
      fst res <> Blocked /\ stop_error env = None /\ init_error env = None /\
      can_open csv_path s /\
      scanner_active (snd res) = false /\
      _fh (csvw (snd res)) = None /\ _writer (csvw (snd res)) = None)).
Proof.
  intros HP res. subst res.
  pose proof (before_teardown_handler P _ HP) as Hh.
  assert (Hsetup :
    forall s1, CsvWriter_open (set_csvw (CsvWriter_init csv_path) s) = (Done tt, s1) ->
    extends P s s1 ->
    (forall fd, _fh (csvw s1) = Some fd ->
                _writer (csvw s1) = Some fd /\ is_Some (handles s1 !! fd)) ->
    (_fh (csvw s1) = None -> _writer (csvw s1) = None) ->
    can_open csv_path s ->
    teardown_trace csv_path s =
      ScannerStopped ::
        match _fh (csvw s1) with Some fd => [FileClosed fd] | None => [] end ->
    exists t0,
      forallb P t0 = true /\
      ((trace (snd (session s)) = (trace s ++ t0)%list /\
        (fst (session s) = Blocked \/
         exists e, fst (session s) = Raised e /\
                   (stop_error env = Some e \/ init_error env = Some e \/
                    ~ can_open csv_path s))) \/
       (trace (snd (session s)) = (trace s ++ t0 ++ teardown_trace csv_path s)%list /\
        fst (session s) <> Blocked /\ stop_error env = None /\
        init_error env = None /\
        can_open csv_path s /\
        scanner_active (snd (session s)) = false /\
        _fh (csvw (snd (session s))) = None /\
        _writer (csvw (snd (session s))) = None))).
  { intros s1 Hopen Hext Hfd Hnone Hcan Htd.
    destruct (scan_ble_setup s s1 (before_teardown_setup _ HP) Hopen)
      as (sa & Ka & _ & Heq).
    rewrite Heq. clear Heq.
    destruct (init_error env) as [e0 |] eqn:Hinit.
    { destruct Ka as (Ea & _).
      destruct (extends_trans P s s1 sa Hext Ea) as (t & Ht & Hf).
      exists t. split; [exact Hf |].
      left. split; [exact Ht |]. right. exists e0. split; [reflexivity |].
      right. left. reflexivity. }
    unfold try_finally.
    pose proof (scan_try_keeps P filter_name filter_address env duration continuous
                  sa HP) as Kb.
    destruct (scan_try duration continuous cb env sa) as [r sb]. cbn [snd] in Kb.
    assert (Hs1b : keeps P s1 sb) by (eapply keeps_trans; eassumption).
    destruct Hs1b as (Eb & Cb & Hb).
    assert (Esb : extends P s sb) by (eapply extends_trans; eassumption).
    destruct r as [[] | e |].
    3: { destruct Esb as (t & Ht & Hf). exists t. split; [exact Hf |].
         left. split; [exact Ht | left; reflexivity]. }
    all: destruct (stop_error env) as [e' |] eqn:Hstop.
    all: try (destruct (scan_finally_raises P filter_name filter_address env e' sb Hh Hstop)
               as (Hr & (Ef & _));
              destruct (scan_finally cb env sb) as [rf sf]; cbn [fst snd] in *;
              subst rf;
              destruct (extends_trans P s sb sf Esb Ef) as (t & Ht & Hf);
              exists t; split; [exact Hf |];
              left; split; [exact Ht | right; exists e'; split; [reflexivity | left; reflexivity]]).
    all: destruct (scan_finally_completes P filter_name filter_address env sb Hh Hstop)
           as (Hr & Hact & Hfh & Hwr & t1 & Hf1 & Ht1);
      [intros fd Hfd'; rewrite Cb, Hb in *; apply Hfd, Hfd'
      | rewrite Cb; exact Hnone |].
    all: destruct (scan_finally cb env sb) as [rf sf]; cbn [fst snd] in *; subst rf.
    all: destruct Esb as (t & Ht & Hf);
      exists (t ++ t1)%list; split; [rewrite forallb_app, Hf, Hf1; reflexivity |];
      right; repeat split; try assumption; try discriminate.
    all: cbn [fst snd]; rewrite Ht1, Ht, Htd, Cb, <- !app_assoc; reflexivity. }
  destruct (open_cases s (before_teardown_setup _ HP)) as [[Hfalsy Hopen] | [(Htruthy & Hno & Hopen) | (Htruthy & Hcan & path & s1 & Hopen & Hc & Hh1 & Hext)]].
  - apply (Hsetup _ Hopen).
    + exists []. rewrite app_nil_r. split; reflexivity.
    + intros fd [=].
    + reflexivity.
    + intros p Hp Hne. rewrite Hp in Hfalsy. destruct p; [congruence | discriminate].
    + unfold teardown_trace. rewrite Hfalsy. reflexivity.
  - rewrite (scan_ble_open_fails _ _ _ Hopen). exists []. split; [reflexivity |].
    left. cbn. rewrite app_nil_r. split; [reflexivity |].
    right. exists OSError. split; [reflexivity | right; right; exact Hno].
  - apply (Hsetup _ Hopen Hext).
    + rewrite Hc. cbn. intros fd [= <-]. split; [reflexivity |].
      rewrite Hh1. eauto.
    + rewrite Hc. discriminate.
    + exact Hcan.
    + unfold teardown_trace. rewrite Htruthy, Hc. reflexivity.
Qed.

End Run.

Section Cancellation.

Variables filter_name filter_address : option string.
Variable env : Env.
Variable duration : option spec_float.
Variable continuous : bool.
Variable csv_path : option string.

Lemma not_woke_handler (e : effect) : from_handler e = true -> not_woke e = true.
Proof. destruct e; (discriminate || reflexivity). Qed.

Lemma not_woke_setup (e : effect) : from_setup e = true -> not_woke e = true.
Proof. destruct e; (discriminate || reflexivity). Qed.






End Cancellation.

Section Main.

Variables (args : Args) (env : Env) (s : State).

Abbreviation run :=
  (scan_ble (main_duration args) (arg_filter_name args) (arg_filter_address args)
     (arg_continuous args) (arg_csv args) env s).

Lemma main_state : snd (main args env s) = snd run.
Proof.
  unfold main. destruct run as [[[] | [] |] s']; reflexivity.
Qed.


End Main.

Lemma close_split (t0 pre post tail : list effect) (fd : nat) :
  forallb not_close t0 = true ->
  (t0 ++ tail)%list = (pre ++ FileClosed fd :: post)%list ->
  exists k, pre = (t0 ++ k)%list /\ tail = (k ++ FileClosed fd :: post)%list.
Proof.
  revert pre. induction t0 as [| x t0 IH]; intros pre Hq Heq.
  - exists pre. split; [reflexivity | exact Heq].
  - cbn [forallb] in Hq. apply andb_true_iff in Hq as [Hx Hq].
    destruct pre as [| y pre]; cbn in Heq.
    + inversion Heq; subst. discriminate.
    + inversion Heq; subst.
      destruct (IH pre Hq ltac:(assumption)) as (k & -> & ->).
      exists k. split; reflexivity.
Qed.

Lemma discovery_active_stopped (t : list effect) :
  discovery_active (t ++ [ScannerStopped]) = false.
Proof. unfold discovery_active. rewrite fold_left_app. reflexivity. Qed.

Lemma not_close_before_teardown (b : bool) : before_teardown b not_close.
Proof. intros e. destruct e as [| | | | | | | | [] ?]; cbn; auto. Qed.


(** C6: in every run of a scan session the sink is closed at most once,
    as the last action, immediately after the stop of the discovery
    primitive has completed, discovery being inactive by then; and every
    session that ends after its sink could be opened and whose stop
    completes ends with exactly that teardown: discovery stopped, then the
    sink closed. *)
Theorem teardown_order (duration : option spec_float)
    (filter_name filter_address : option string) (continuous : bool)
    (csv_path : option string) (env : Env) (s : State) :
  let res := scan_ble duration filter_name filter_address continuous csv_path env s in
  exists t,
    trace (snd res) = (trace s ++ t)%list /\
    (forall pre fd post,
        t = (pre ++ FileClosed fd :: post)%list ->
        post = [] /\ (exists pre', pre = (pre' ++ [ScannerStopped])%list) /\
        discovery_active pre = false) /\
    (fst res <> Blocked -> can_open csv_path s ->
     init_error env = None -> stop_error env = None ->
       scanner_active (snd res) = false /\
       _fh (csvw (snd res)) = None /\
       exists t0,
         forallb not_close t0 = true /\
         t = (t0 ++ teardown_trace csv_path s)%list).
Proof.
  intros res.
  destruct (scan_ble_shape not_close filter_name filter_address env duration
              continuous csv_path s (not_close_before_teardown _))
    as (t0 & Hq & [(Ht & Hend) | (Ht & Hnb & Hstop & Hinit & Hcan & Hact & Hfh & _)]);
    fold res in Ht |- *.
  - exists t0. split; [exact Ht |]. split.
    + intros pre fd post Heq.
      rewrite <- (app_nil_r t0) in Heq.
      destruct (close_split t0 pre post [] fd Hq Heq) as (k & _ & Hk).
      destruct k; discriminate.
    + intros Hnb Hcan Hinit Hstop. fold res in Hend.
      destruct Hend as [Hb | (e & _ & [He | [He | Hno]])];
        [contradiction | congruence | congruence | contradiction].
  - fold res in Hnb, Hact, Hfh.
    exists (t0 ++ teardown_trace csv_path s)%list. split; [exact Ht |]. split.
    + intros pre fd post Heq.
      destruct (close_split t0 pre post _ fd Hq Heq) as (k & -> & Hk).
      unfold teardown_trace in Hk.
      destruct (PyStr.truthy csv_path).
      * destruct k as [| a [| b k]]; cbn in Hk; try discriminate.
        -- inversion Hk; subst. repeat split; eauto.
           apply discovery_active_stopped.
        -- inversion Hk as [[Ha Hb Hc]]. destruct k; discriminate.
      * destruct k as [| a k]; cbn in Hk; [discriminate |].
        inversion Hk as [[Ha Hb]]. destruct k; discriminate.
    + intros _ _ _ _. repeat split; try assumption. eauto.
Qed.



(** The guard of [scan_ble] alone arms a timer when it is handed the
    continuous flag together with a positive duration; it is [main] that
    drops the duration whenever the flag is set. *)
Remark scan_ble_guard_alone :
  timer_armed true (Some (S754_finite false 5 0)) = true /\
  timer_armed true (Some (S754_zero false)) = false /\
  timer_armed true None = false /\
  timer_armed false (Some (S754_zero true)) = false /\
  timer_armed false (Some (S754_finite false 5 0)) = true.
Proof. repeat split. Qed.

(** A complete run: one detection, a trigger, the teardown. *)
Example session_trace :
  let dev := mkDevice (Some "AA:BB:CC:DD:EE:FF") None (Some "Tag") None in
  let adv := mkAdv None (Some (-70)) (Some 4) (Some [(76, [Byte.x02; Byte.x15])])
               (Some ["180f"]) in
  let env := mkEnv (fun _ => true) None None [(1, Detect dev adv); (7, Trigger)] []
               None in
  let s := initial_state ∅ (fun n => "2026-01-01T00:00:0" +:+ PyStr.str_int (Z.of_nat n)) in
  let res := scan_ble None None None true (Some "ble_log.csv") env s in
  fst res = Done tt /\
  trace (snd res) =
    [FileOpened "ble_log.csv" 3;
     FileWritten 3
       ("timestamp,address,name,rssi,tx_power,manufacturer_data,service_uuids" +:+ crlf);
     HandlerAdded SIGINT; HandlerAdded SIGTERM; ScannerStarted;
     Printed "[2026-01-01T00:00:00] AA:BB:CC:DD:EE:FF    RSSI= -70 dBm  TX=  4  Name=Tag  Manu=0x004c:0215  Services=180f";
     FileWritten 3
       ("2026-01-01T00:00:01,AA:BB:CC:DD:EE:FF,Tag,-70,4,0x004c:0215,180f" +:+ crlf);
     Woke ByStopEvent 7; ScannerStopped; FileClosed 3].
Proof. split; reflexivity. Qed.

(** * Further properties of the code *)

(** ** The accepted path of the detection handler *)

Section AcceptedPath.

Variables filter_name filter_address : option string.

Lemma on_detect_accepted_state (device : BLEDevice) (adv : AdvertisementData)
    (r : Z) (s : State) :
  accepts filter_name filter_address (resolve_name device adv) (resolve_addr device)
    = true ->
  resolve_rssi device adv = Some r ->
  sink_ok s ->
  let addr := resolve_addr device in
  let name := resolve_name device adv in
  let line := console_line (now_iso s (ticks s)) addr name r adv in
  let row := event_row (now_iso s (S (ticks s))) device adv in
  on_detect filter_name filter_address device adv s =
  (Done tt,
   match _writer (csvw s) with
   | Some w =>
       match handles s !! w with
       | Some path =>
           set_trace (trace s ++ [Printed line; FileWritten w (csv_row row)])
             (set_files (<[path := File (content_of s path +:+ csv_row row)]> (files s))
                (set_ticks (S (S (ticks s)))
                   (set_last_seen (<[addr := Some r]> (last_seen s)) s)))
       | None => s
       end
   | None =>
       set_trace (trace s ++ [Printed line])
         (set_ticks (S (S (ticks s)))
            (set_last_seen (<[addr := Some r]> (last_seen s)) s))
   end).
Proof.
  unfold accepts, on_detect, sink_ok, event_row. intros Hacc Hr Hok.
  destruct (name_rejected _ _); [discriminate |].
  destruct (address_rejected _ _); [discriminate |].
  rewrite Hr. unfold_eff. cbn.
  destruct (_writer (csvw s)) as [w |]; cbn; [| reflexivity].
  destruct Hok as [path Hp]. rewrite Hp. cbn.
  unfold content_of. cbn. rewrite <- app_assoc. reflexivity.
Qed.

End AcceptedPath.

(** X1: an accepted event that carries a signal strength is handled
    without raising: it stores the signal strength under the address,
    prints exactly one console line and then, when the sink is open, writes
    exactly one row; the line carries the first reading of the clock and
    the row the second; nothing else of the sink changes. *)
Theorem accepted_detection (filter_name filter_address : option string)
    (device : BLEDevice) (adv : AdvertisementData) (r : Z) (s : State) :
  accepts filter_name filter_address (resolve_name device adv) (resolve_addr device)
    = true ->
  resolve_rssi device adv = Some r ->
  sink_ok s ->
  let addr := resolve_addr device in
  let res := on_detect filter_name filter_address device adv s in
  fst res = Done tt /\
  ticks (snd res) = S (S (ticks s)) /\
  last_seen (snd res) = <[addr := Some r]> (last_seen s) /\
  trace (snd res) =
    (trace s ++
     Printed (console_line (now_iso s (ticks s)) addr (resolve_name device adv) r adv) ::
     match _writer (csvw s) with
     | Some w =>
         [FileWritten w (csv_row (event_row (now_iso s (S (ticks s))) device adv))]
     | None => []
     end)%list /\
  csvw (snd res) = csvw s /\ handles (snd res) = handles s.
Proof.
  intros Hacc Hr Hok addr res. subst res.
  rewrite (on_detect_accepted_state filter_name filter_address device adv r s Hacc Hr Hok).
  unfold sink_ok in Hok. cbn [fst snd].
  destruct (_writer (csvw s)) as [w |]; [| repeat split].
  destruct Hok as [path Hp]. rewrite Hp. repeat split.
Qed.

Lemma accepted_detection_witness :
  let dev := mkDevice (Some "AA:BB:CC:DD:EE:FF") None (Some "Tag") None in
  let adv := mkAdv None (Some (-70)) None None None in
  let s := initial_state ∅ (fun n => "T" +:+ PyStr.str_int (Z.of_nat n)) in
  trace (snd (on_detect (Some "tag") None dev adv s)) =
  [Printed "[T0] AA:BB:CC:DD:EE:FF    RSSI= -70 dBm  TX=  -  Name=Tag  Manu=-  Services=-"].
Proof.
  intros dev adv s.
  exact (proj1 (proj2 (proj2 (proj2
           (accepted_detection (Some "tag") None dev adv (-70) s eq_refl eq_refl I))))).
Defined.

(** X2: an accepted event without a signal strength is stored in the
    last-seen map with no value, but it is neither printed nor written to
    the sink: the handler raises after one reading of the clock, and what
    the scanner's delivery leaves behind is only the record of the failed
    callback. *)
Theorem absent_rssi_not_logged (filter_name filter_address : option string)
    (device : BLEDevice) (adv : AdvertisementData) (s : State) :
  accepts filter_name filter_address (resolve_name device adv) (resolve_addr device)
    = true ->
  resolve_rssi device adv = None ->
  let res := deliver (on_detect filter_name filter_address device adv) s in
  fst res = Done tt /\
  last_seen (snd res) = <[resolve_addr device := None]> (last_seen s) /\
  trace (snd res) = (trace s ++ [CallbackRaised TypeError])%list /\
  files (snd res) = files s /\
  ticks (snd res) = S (ticks s).
Proof.
  intros Hacc Hr res. subst res. unfold deliver.
  rewrite (on_detect_absent_rssi filter_name filter_address device adv s Hacc Hr).
  repeat split.
Qed.

Lemma absent_rssi_not_logged_witness :
  let dev := mkDevice (Some "AA:BB:CC:DD:EE:FF") None (Some "Tag") None in
  let adv := mkAdv None None None None None in
  let s := initial_state ∅ (fun _ => "T") in
  let res := deliver (on_detect None None dev adv) s in
  last_seen (snd res) !! "AA:BB:CC:DD:EE:FF" = Some None /\
  trace (snd res) = [CallbackRaised TypeError].
Proof.
  intros dev adv s res.
  destruct (absent_rssi_not_logged None None dev adv s eq_refl eq_refl)
    as (_ & Hl & Ht & _).
  split.
  - fold res in Hl. rewrite Hl. reflexivity.
  - exact Ht.
Defined.

(** ** What a delivery of events leaves in the log *)

Section Delivery.

Variables filter_name filter_address : option string.

Abbreviation handle := (on_detect filter_name filter_address).




End Delivery.



(** ** Invariants of a whole session *)

Section Invariants.

Variable I : State -> Prop.
Variable R : State -> State -> Prop.
Hypothesis R_refl : forall s, R s s.
Hypothesis R_trans : forall s1 s2 s3, R s1 s2 -> R s2 s3 -> R s1 s3.

Lemma step_ret {A} (a : A) : step_ok I R (ret a).
Proof. intros s Hs. split; [exact Hs | apply R_refl]. Qed.

Lemma step_raise {A} (e : exn) : step_ok I R (@raise A e).
Proof. intros s Hs. split; [exact Hs | apply R_refl]. Qed.

Lemma step_block {A} : step_ok I R (@block A).
Proof. intros s Hs. split; [exact Hs | apply R_refl]. Qed.

Lemma step_get : step_ok I R get.
Proof. intros s Hs. split; [exact Hs | apply R_refl]. Qed.

Lemma step_bind {A B} (m : M A) (k : A -> M B) :
  step_ok I R m -> (forall a, step_ok I R (k a)) -> step_ok I R (bind m k).
Proof.
  intros Hm Hk s Hs. unfold bind.
  destruct (Hm s Hs) as [I1 R1].
  destruct (m s) as [[a | e |] s1]; cbn [snd] in *; [| split; assumption ..].
  destruct (Hk a s1 I1) as [I2 R2]. split; [exact I2 | eauto].
Qed.

Lemma step_if {A} (b : bool) (m1 m2 : M A) :
  step_ok I R m1 -> step_ok I R m2 -> step_ok I R (if b then m1 else m2).
Proof. destruct b; auto. Qed.

Lemma step_try_finally {A} (body : M A) (fin : M unit) :
  step_ok I R body -> step_ok I R fin -> step_ok I R (try_finally body fin).
Proof.
  intros Hb Hf s Hs. unfold try_finally.
  destruct (Hb s Hs) as [I1 R1].
  destruct (body s) as [[a | e |] s1]; cbn [snd] in *; [| | split; assumption].
  all: destruct (Hf s1 I1) as [I2 R2];
    destruct (fin s1) as [[[] | e' |] s2]; cbn [snd] in *; split; eauto.
Qed.

Lemma step_except_timeout (m : M unit) :
  step_ok I R m -> step_ok I R (except_timeout m).
Proof.
  intros Hm s Hs. unfold except_timeout. specialize (Hm s Hs).
  destruct (m s) as [[[] | [] |] s1]; exact Hm.
Qed.

Lemma step_except_not_implemented (m : M unit) :
  step_ok I R m -> step_ok I R (except_not_implemented m).
Proof.
  intros Hm s Hs. unfold except_not_implemented. specialize (Hm s Hs).
  destruct (m s) as [[[] | [] |] s1]; exact Hm.
Qed.

Hypothesis emit_ok : forall e, step_ok I R (emit e).

Lemma step_deliver (m : M unit) : step_ok I R m -> step_ok I R (deliver m).
Proof.
  intros Hm s Hs. unfold deliver. destruct (Hm s Hs) as [I1 R1].
  destruct (m s) as [[[] | e |] s1]; cbn [snd] in *; [split; assumption | |
    split; assumption].
  destruct (emit_ok (CallbackRaised e) s1 I1) as [I2 R2]. split; eauto.
Qed.

Variable callback : BLEDevice -> AdvertisementData -> M unit.
Hypothesis callback_ok : forall d a, step_ok I R (callback d a).

Lemma step_deliver_all (evs : list (BLEDevice * AdvertisementData)) :
  step_ok I R (deliver_all callback evs).
Proof.
  induction evs as [| [d a] evs IH]; cbn [deliver_all].
  - apply step_ret.
  - apply step_bind; [apply step_deliver, callback_ok | intros _; exact IH].
Qed.

Hypothesis stop_event_ok : forall b, step_ok I R (modify (set_stop_event b)).
Hypothesis scanner_active_ok : forall b, step_ok I R (modify (set_scanner_active b)).

Lemma step_suspended (timeout : option spec_float) (evs : list (Time * env_event)) :
  step_ok I R (suspended callback timeout evs).
Proof.
  induction evs as [| [t ev] evs IH]; cbn [suspended].
  - apply step_block.
  - destruct ev as [d a | | | e].
    + apply step_bind; [apply step_deliver, callback_ok | intros _; exact IH].
    + apply step_bind; [apply stop_event_ok | intros _; apply emit_ok].
    + destruct timeout; [| exact IH].
      apply step_bind; [apply emit_ok | intros _; apply step_raise].
    + apply step_bind; [apply emit_ok | intros _; apply step_raise].
Qed.

Lemma step_scan_try (duration : option spec_float) (continuous : bool) (env : Env) :
  step_ok I R (scan_try duration continuous callback env).
Proof.
  unfold scan_try, scanner_start, stop_event_wait, wait_for_stop_event.
  apply step_bind.
  - destruct (start_error env); [apply step_raise |].
    apply step_bind; [apply scanner_active_ok | intros _; apply emit_ok].
  - intros _. apply step_if.
    + apply step_bind; [apply step_get | intros s0].
      apply step_if; [apply step_ret | apply step_suspended].
    + apply step_except_timeout.
      apply step_bind; [apply step_get | intros s0].
      apply step_if; [apply step_ret | apply step_suspended].
Qed.

Hypothesis close_ok : step_ok I R CsvWriter_close.

Lemma step_scan_finally (env : Env) : step_ok I R (scan_finally callback env).
Proof.
  unfold scan_finally, scanner_stop.
  apply step_bind; [| intros _; exact close_ok].
  apply step_bind; [apply step_deliver_all | intros _].
  destruct (stop_error env); [apply step_raise |].
  apply step_bind; [apply scanner_active_ok | intros _; apply emit_ok].
Qed.

Hypothesis last_seen_ok : step_ok I R (modify (set_last_seen ∅)).

(** What [scan_ble] does once the sink is open. *)
Lemma step_session (duration : option spec_float) (continuous : bool) (env : Env) :
  step_ok I R
    (modify (set_stop_event false) ;;;
     except_not_implemented (add_signal_handler env SIGINT) ;;;
     except_not_implemented (add_signal_handler env SIGTERM) ;;;
     modify (set_last_seen ∅) ;;;
     scanner_init env ;;;
     try_finally (scan_try duration continuous callback env)
       (scan_finally callback env)).
Proof.
  assert (Hsig : forall sig,
             step_ok I R (except_not_implemented (add_signal_handler env sig))).
  { intros sig. apply step_except_not_implemented. unfold add_signal_handler.
    apply step_if; [apply emit_ok | apply step_raise]. }
  apply step_bind; [apply stop_event_ok | intros _].
  apply step_bind; [apply Hsig | intros _].
  apply step_bind; [apply Hsig | intros _].
  apply step_bind; [apply last_seen_ok | intros _].
  apply step_bind.
  - unfold scanner_init. destruct (init_error env); [apply step_raise | apply step_ret].
  - intros _. apply step_try_finally; [apply step_scan_try | apply step_scan_finally].
Qed.

End Invariants.

(** ** The session only appends to its log *)

Section AppendOnly.

Variable target : option string.

Lemma appends_only_refl (s : State) : appends_only target s s.
Proof.
  split; [reflexivity |]. intros p _. exists "". symmetry. apply append_nil_r.
Qed.

Lemma appends_only_trans (s1 s2 s3 : State) :
  appends_only target s1 s2 -> appends_only target s2 s3 ->
  appends_only target s1 s3.
Proof.
  intros [O1 A1] [O2 A2]. split.
  - intros p Hp. rewrite O2, O1 by exact Hp. reflexivity.
  - intros p Hp. destruct (A1 p Hp) as [a1 H1]. destruct (A2 p Hp) as [a2 H2].
    exists (a1 +:+ a2). rewrite H2, H1. apply append_assoc.
Qed.

Lemma appends_only_same_files (s s' : State) :
  files s' = files s -> appends_only target s s'.
Proof.
  intros H. split.
  - intros p _. rewrite H. reflexivity.
  - intros p _. exists "". unfold content_of. rewrite H. symmetry. apply append_nil_r.
Qed.

Lemma bound_emit (e : effect) :
  step_ok (writer_bound target) (appends_only target) (emit e).
Proof.
  intros s Hs. split; [exact Hs | apply appends_only_same_files; reflexivity].
Qed.

Lemma bound_on_detect (fn fa : option string) (d : BLEDevice) (a : AdvertisementData) :
  step_ok (writer_bound target) (appends_only target) (on_detect fn fa d a).
Proof.
  intros s Hs. unfold on_detect.
  destruct (name_rejected _ _); [split; [exact Hs | apply appends_only_refl] |].
  destruct (address_rejected _ _); [split; [exact Hs | apply appends_only_refl] |].
  unfold_eff. cbn.
  destruct (resolve_rssi d a) as [r |]; cbn;
    [| split; [exact Hs | apply appends_only_same_files; reflexivity]].
  destruct (_writer (csvw s)) as [w |] eqn:Hw; cbn;
    [| split; [unfold writer_bound; cbn; rewrite Hw; discriminate
              | apply appends_only_same_files; reflexivity]].
  destruct (Hs w Hw) as (p & Hp & Hh). rewrite Hh. cbn. split.
  - intros w' Hw'. cbn in Hw'. rewrite Hw in Hw'. injection Hw' as <-.
    exists p. split; [exact Hp | exact Hh].
  - split.
    + intros q Hq. cbn. apply lookup_insert_ne. congruence.
    + intros q Hq. assert (q = p) by congruence. subst q.
      eexists. unfold content_of at 1.
      cbn [files set_trace set_files set_ticks set_last_seen].
      rewrite lookup_insert_eq. reflexivity.
Qed.

Lemma bound_close :
  step_ok (writer_bound target) (appends_only target) CsvWriter_close.
Proof.
  intros s Hs. unfold_eff. cbn.
  destruct (_fh (csvw s)) as [fd |]; cbn;
    [| split; [exact Hs | apply appends_only_refl]].
  destruct (handles s !! fd); cbn;
    (split; [intros w Hw; discriminate Hw
            | apply appends_only_same_files; reflexivity]).
Qed.

Lemma bound_setter (f : State -> State) :
  (forall s, files (f s) = files s /\ csvw (f s) = csvw s /\ handles (f s) = handles s) ->
  step_ok (writer_bound target) (appends_only target) (modify f).
Proof.
  intros Hf s Hs. destruct (Hf s) as (Hfi & Hc & Hh). unfold modify. cbn [snd]. split.
  - intros w Hw. rewrite Hc in Hw. rewrite Hh. apply Hs, Hw.
  - apply appends_only_same_files, Hfi.
Qed.

End AppendOnly.

(** Opening the sink that [scan_ble] creates touches the target alone,
    at its end, and binds the writer to it. *)
Lemma open_appends (csv_path : option string) (s : State) :
  let res := CsvWriter_open (set_csvw (CsvWriter_init csv_path) s) in
  appends_only (log_target csv_path) s (snd res) /\
  (fst res = Done tt -> writer_bound (log_target csv_path) (snd res)).
Proof.
  intros res. subst res. set (s0 := set_csvw (CsvWriter_init csv_path) s).
  unfold log_target.
  destruct (PyStr.truthy csv_path) eqn:Htruthy.
  - destruct csv_path as [[| c p] |] eqn:Hcsv; try discriminate.
    set (path := String c p) in *.
    destruct (files s !! path) as [[old |] |] eqn:Hf.
    + unfold CsvWriter_open. unfold_eff. cbn. rewrite Hf. cbn.
      rewrite lookup_insert_eq. cbn. unfold content_of. cbn. rewrite Hf.
      destruct (String.length old =? 0)%nat eqn:Hlen; cbn.
      * rewrite lookup_insert_eq. cbn. split.
        -- split.
           ++ intros q Hq. cbn. apply lookup_insert_ne. congruence.
           ++ intros q Hq. assert (Hqp : q = path) by (injection Hq; auto).
              rewrite Hqp. clear Hqp Hq q. eexists. unfold content_of at 1.
              cbn [files set_trace set_files set_csvw set_next_fd set_handles].
              rewrite lookup_insert_eq. unfold content_of. reflexivity.
        -- intros _ w [= <-]. exists path. cbn.
           split; [reflexivity | apply lookup_insert_eq].
      * split.
        -- apply appends_only_same_files. reflexivity.
        -- intros _ w [= <-]. exists path. cbn.
           split; [reflexivity | apply lookup_insert_eq].
    + rewrite (CsvWriter_open_fails s0 path eq_refl ltac:(discriminate) Hf).
      split; [apply appends_only_same_files; reflexivity | discriminate].
    + unfold CsvWriter_open. unfold_eff. cbn. rewrite Hf. cbn.
      rewrite lookup_insert_eq. cbn. unfold content_of. cbn.
      rewrite lookup_insert_eq. cbn. rewrite lookup_insert_eq. cbn. split.
      * split.
        -- intros q Hq. cbn. rewrite !lookup_insert_ne by congruence. reflexivity.
        -- intros q Hq. assert (Hqp : q = path) by (injection Hq; auto).
              rewrite Hqp. clear Hqp Hq q. eexists. unfold content_of at 1.
           cbn [files set_trace set_files set_csvw set_next_fd set_handles].
           rewrite lookup_insert_eq. unfold content_of. rewrite Hf.
           reflexivity.
      * intros _ w [= <-]. exists path. cbn.
        split; [reflexivity | apply lookup_insert_eq].
  - rewrite (CsvWriter_open_inert s0 Htruthy).
    split; [apply appends_only_same_files; reflexivity |].
    intros _ w Hw. discriminate Hw.
Qed.

(** X4: a scan session, however it goes, leaves every file other than
    its log target exactly as it was, and changes the log target only by
    adding text at its end: nothing that was in the log is lost or
    rewritten. *)
Theorem session_appends_only (duration : option spec_float)
    (filter_name filter_address : option string) (continuous : bool)
    (csv_path : option string) (env : Env) (s : State) :
  let res := scan_ble duration filter_name filter_address continuous csv_path env s in
  (forall p, log_target csv_path <> Some p -> files (snd res) !! p = files s !! p) /\
  (forall p, log_target csv_path = Some p ->
             exists appended, content_of (snd res) p = content_of s p +:+ appended).
Proof.
  intros res. subst res.
  change (appends_only (log_target csv_path) s
            (snd (scan_ble duration filter_name filter_address continuous csv_path
                    env s))).
  destruct (open_appends csv_path s) as [Hgrow Hbound].
  unfold scan_ble. unfold bind at 1, modify at 1. cbv beta iota.
  unfold bind at 1.
  destruct (CsvWriter_open (set_csvw (CsvWriter_init csv_path) s)) as [[[] | e |] s1];
    cbn [fst snd] in *; [| exact Hgrow | exact Hgrow].
  eapply appends_only_trans; [exact Hgrow |].
  set (target := log_target csv_path) in *.
  refine (proj2 (step_session (writer_bound target) (appends_only target)
                   (appends_only_refl target) (appends_only_trans target)
                   (bound_emit target) (on_detect filter_name filter_address)
                   (bound_on_detect target filter_name filter_address)
                   _ _ (bound_close target) _ duration continuous env s1
                   (Hbound eq_refl))).
  - intros b. apply bound_setter. intros s'. repeat split.
  - intros b. apply bound_setter. intros s'. repeat split.
  - apply bound_setter. intros s'. repeat split.
Qed.

(** ** How a session ends *)

Section Wake.

Variables filter_name filter_address : option string.
Variable env : Env.
Variable duration : option spec_float.
Variable continuous : bool.
Variable csv_path : option string.

Abbreviation detect := (on_detect filter_name filter_address).

Lemma suspended_wakes (timeout : option spec_float)
    (pre rest : list (Time * env_event)) (T : Time) (ev : env_event)
    (w : wake) (o : outcome unit) (s : State) :
  forallb is_detect pre = true ->
  head_wake timeout ev = Some (w, o) ->
  exists s1 t0,
    suspended detect timeout (pre ++ (T, ev) :: rest) s = (o, s1) /\
    trace s1 = (trace s ++ t0 ++ [Woke w T])%list /\
    forallb from_handler t0 = true /\
    csvw s1 = csvw s /\ handles s1 = handles s.
Proof.
  intros Hpre Hev. revert s.
  induction pre as [| [t e] pre IH]; intros s.
  - cbn [app suspended].
    destruct ev as [d a | | | e]; cbn in Hev.
    + discriminate.
    + injection Hev as <- <-. eexists _, []. split; [reflexivity |].
      repeat split.
    + destruct timeout; [| discriminate]. injection Hev as <- <-.
      eexists _, []. split; [reflexivity |]. repeat split.
    + injection Hev as <- <-. eexists _, []. split; [reflexivity |]. repeat split.
  - cbn [forallb] in Hpre. apply andb_true_iff in Hpre as [He Hpre].
    destruct e as [d a | | |]; try discriminate.
    cbn [app suspended]. unfold bind at 1.
    pose proof (deliver_done (detect d a) s (on_detect_not_blocked _ _ d a s)) as Hd.
    pose proof (keeps_deliver from_handler (fun e H => H) (detect d a) s
                  (keeps_on_detect from_handler (fun e H => H) _ _ d a s)) as Hk.
    destruct (deliver (detect d a) s) as [r s0]. cbn [fst snd] in Hd, Hk. subst r.
    destruct (IH Hpre s0) as (s1 & t0 & Heq & Ht & Hf & Hc & Hh).
    destruct Hk as ((t1 & Ht1 & Hf1) & Hc1 & Hh1).
    exists s1, (t1 ++ t0)%list. split; [exact Heq |].
    rewrite Ht, Ht1, forallb_app, Hf1, Hf, <- !app_assoc.
    repeat split; congruence.
Qed.

Lemma scan_try_wakes (pre rest : list (Time * env_event)) (T : Time)
    (ev : env_event) (w : wake) (o : outcome unit) (sa : State) :
  start_error env = None ->
  stop_event sa = false ->
  script env = (pre ++ (T, ev) :: rest)%list ->
  forallb is_detect pre = true ->
  head_wake (effective_timeout continuous duration) ev = Some (w, o) ->
  exists sb t0,
    scan_try duration continuous detect env sa = (caught continuous duration o, sb) /\
    trace sb = (trace sa ++ ScannerStarted :: t0 ++ [Woke w T])%list /\
    forallb from_handler t0 = true /\
    csvw sb = csvw sa /\ handles sb = handles sa.
Proof.
  intros Hstart Hstop Hscript Hpre Hev.
  set (s' := set_trace (trace sa ++ [ScannerStarted]) (set_scanner_active true sa)).
  destruct (suspended_wakes _ pre rest T ev w o s' Hpre Hev)
    as (sb & t0 & Heq & Ht & Hf & Hc & Hh).
  exists sb, t0.
  split; [| subst s'; cbn in Ht; rewrite Ht, <- !app_assoc; repeat split;
            assumption].
  unfold scan_try, scanner_start. rewrite Hstart.
  unfold bind at 1. unfold bind at 1, modify at 1, emit at 1, modify at 1.
  cbv beta iota. cbn [trace set_scanner_active]. fold s'.
  unfold effective_timeout, caught in *. rewrite Hscript.
  destruct (continuous && in_none_zero duration).
  - unfold stop_event_wait, bind, get. cbv beta iota.
    replace (stop_event s') with false by (symmetry; exact Hstop).
    exact Heq.
  - unfold except_timeout, wait_for_stop_event, bind, get. cbv beta iota.
    replace (stop_event s') with false by (symmetry; exact Hstop).
    rewrite Heq. destruct o as [[] | [] |]; reflexivity.
Qed.

(** A session whose sink can be opened, whose scanner is constructed,
    started and stopped without error, and whose wait is ended by an
    event of the script, runs its teardown and ends as its [try] block
    did. *)
Lemma scan_ble_wakes (pre rest : list (Time * env_event)) (T : Time)
    (ev : env_event) (w : wake) (o : outcome unit) (s : State) :
  can_open csv_path s ->
  init_error env = None ->
  start_error env = None ->
  stop_error env = None ->
  script env = (pre ++ (T, ev) :: rest)%list ->
  forallb is_detect pre = true ->
  head_wake (effective_timeout continuous duration) ev = Some (w, o) ->
  let res := scan_ble duration filter_name filter_address continuous csv_path env s in
  fst res = caught continuous duration o /\
  scanner_active (snd res) = false /\
  _fh (csvw (snd res)) = None /\
  exists tb ta,
    trace (snd res) =
      (trace s ++ tb ++ Woke w T :: ta ++ teardown_trace csv_path s)%list /\
    forallb not_woke tb = true /\ forallb from_handler ta = true.
Proof.
  intros Hcan Hinit Hstart Hstop Hscript Hpre Hev res. subst res.
  assert (Hopen : exists s1,
    CsvWriter_open (set_csvw (CsvWriter_init csv_path) s) = (Done tt, s1) /\
    extends not_woke s s1 /\
    (forall fd, _fh (csvw s1) = Some fd ->
                _writer (csvw s1) = Some fd /\ is_Some (handles s1 !! fd)) /\
    (_fh (csvw s1) = None -> _writer (csvw s1) = None) /\
    teardown_trace csv_path s =
      ScannerStopped ::
        match _fh (csvw s1) with Some fd => [FileClosed fd] | None => [] end).
  { destruct (open_cases not_woke csv_path s not_woke_setup)
      as [[Hfalsy Ho] | [(_ & Hno & _) | (Htruthy & _ & path & s1 & Ho & Hc & Hh & He)]].
    - eexists. split; [exact Ho |]. split; [| split; [| split]].
      + exists []. rewrite app_nil_r. split; reflexivity.
      + intros fd [=].
      + reflexivity.
      + unfold teardown_trace. rewrite Hfalsy. reflexivity.
    - contradiction.
    - exists s1. split; [exact Ho |]. split; [exact He |]. rewrite Hc. cbn.
      split; [| split].
      + intros fd [= <-]. split; [reflexivity |]. rewrite Hh. eauto.
      + discriminate.
      + unfold teardown_trace. rewrite Htruthy. reflexivity. }
  destruct Hopen as (s1 & Hopen & (t1 & Ht1 & Hf1) & Hfd & Hnone & Htd).
  destruct (scan_ble_setup not_woke filter_name filter_address env duration
              continuous csv_path s s1 not_woke_setup Hopen)
    as (sa & ((t2 & Ht2 & Hf2) & Hca & Hha) & Hse & Heq).
  rewrite Heq, Hinit. clear Heq. unfold try_finally.
  destruct (scan_try_wakes pre rest T ev w o sa Hstart Hse Hscript Hpre Hev)
    as (sb & t3 & Htry & Ht3 & Hf3 & Hcb & Hhb).
  rewrite Htry.
  destruct (scan_finally_completes from_handler filter_name filter_address env sb
              (fun e H => H) Hstop)
    as (Hr & Hact & Hfh & _ & t4 & Hf4 & Ht4).
  { intros fd Hfd'. rewrite Hcb, Hca, Hhb, Hha in *. apply Hfd, Hfd'. }
  { rewrite Hcb, Hca. exact Hnone. }
  destruct (scan_finally detect env sb) as [rf sf]. cbn [fst snd] in *. subst rf.
  assert (Hnb : caught continuous duration o <> Blocked).
  { unfold caught. destruct ev as [d a | | | e]; cbn in Hev; try discriminate.
    - injection Hev as <- <-. destruct (continuous && in_none_zero duration); discriminate.
    - destruct (effective_timeout continuous duration); [| discriminate].
      injection Hev as <- <-. destruct (continuous && in_none_zero duration); discriminate.
    - injection Hev as <- <-.
      destruct (continuous && in_none_zero duration); [discriminate |].
      destruct e; discriminate. }
  replace (match caught continuous duration o with
           | Blocked => (Blocked, sb)
           | _ => (caught continuous duration o, sf)
           end) with (caught continuous duration o, sf)
    by (destruct (caught continuous duration o) as [[] | e |];
        [reflexivity | reflexivity | contradiction]).
  cbn [fst snd]. split; [reflexivity |]. split; [exact Hact |].
  split; [exact Hfh |].
  exists (t1 ++ t2 ++ ScannerStarted :: t3)%list, t4.
  rewrite Ht4, Ht3, Ht2, Ht1, Htd, Hcb, Hca.
  rewrite !forallb_app, Hf1, Hf2. cbn [forallb not_woke is_woke negb andb].
  repeat split.
  - rewrite <- !app_assoc. cbn. rewrite <- !app_assoc. reflexivity.
  - apply forallb_forall. intros e He. apply not_woke_handler.
    rewrite forallb_forall in Hf3. apply Hf3, He.
  - exact Hf4.
Qed.

End Wake.

(** X5: a session with a non-zero duration, whose wait is ended by the
    expiry of its timer or, before that, by a cancellation trigger, ends
    normally in both cases: the [TimeoutError] of the wait is swallowed,
    the wake-up is the only one of the run, and the teardown follows
    (discovery stopped, sink closed). *)
Theorem bounded_session (d : spec_float)
    (filter_name filter_address : option string) (continuous : bool)
    (csv_path : option string) (env : Env) (s : State)
    (pre rest : list (Time * env_event)) (T : Time) (ev : env_event) :
  float_eq_zero d = false ->
  can_open csv_path s ->
  init_error env = None -> start_error env = None -> stop_error env = None ->
  script env = (pre ++ (T, ev) :: rest)%list ->
  forallb is_detect pre = true ->
  ev = TimerExpired \/ ev = Trigger ->
  let res := scan_ble (Some d) filter_name filter_address continuous csv_path env s in
  fst res = Done tt /\
  scanner_active (snd res) = false /\
  _fh (csvw (snd res)) = None /\
  exists tb ta,
    trace (snd res) =
      (trace s ++ tb ++
       Woke (match ev with TimerExpired => ByTimer | _ => ByStopEvent end) T ::
       ta ++ teardown_trace csv_path s)%list /\
    forallb not_woke tb = true /\ forallb from_handler ta = true.
Proof.
  intros Hd Hcan Hinit Hstart Hstop Hscript Hpre Hev res. subst res.
  assert (Hto : effective_timeout continuous (Some d) = Some d).
  { unfold effective_timeout. cbn. rewrite Hd, andb_false_r. reflexivity. }
  assert (Hcaught : forall o, o = Done tt \/ o = Raised TimeoutError ->
                              caught continuous (Some d) o = Done tt).
  { intros o [-> | ->]; unfold caught; cbn; rewrite Hd, andb_false_r; reflexivity. }
  destruct Hev as [-> | ->].
  - rewrite <- (Hcaught (Raised TimeoutError)) by auto.
    apply (scan_ble_wakes filter_name filter_address env (Some d) continuous csv_path
             pre rest T TimerExpired ByTimer (Raised TimeoutError) s); auto.
    rewrite Hto. reflexivity.
  - rewrite <- (Hcaught (Done tt)) by auto.
    apply (scan_ble_wakes filter_name filter_address env (Some d) continuous csv_path
             pre rest T Trigger ByStopEvent (Done tt) s); auto.
Qed.

Lemma bounded_session_witness :
  let dev := mkDevice (Some "AA:BB:CC:DD:EE:FF") None (Some "Tag") None in
  let adv := mkAdv None (Some (-70)) None None None in
  let env := mkEnv (fun _ => true) None None
               [(1, Detect dev adv); (10, TimerExpired); (12, Trigger)] [] None in
  let s := initial_state ∅ (fun _ => "T") in
  fst (scan_ble (Some (S754_finite false 5 1)) None None false (Some "ble_log.csv")
         env s) = Done tt.
Proof.
  intros dev adv env s.
  refine (proj1 (bounded_session (S754_finite false 5 1) None None false
                   (Some "ble_log.csv") env s [(1, Detect dev adv)] [(12, Trigger)]
                   10 TimerExpired eq_refl _ eq_refl eq_refl eq_refl eq_refl eq_refl
                   (or_introl eq_refl))).
  intros p [= <-] _. discriminate.
Defined.

(** X6: when an exception other than [TimeoutError] is thrown into the
    waiting session, the teardown still runs (discovery stopped, sink
    closed) and [main] then returns 0 if the exception is
    [KeyboardInterrupt] and lets any other exception through. *)
Theorem exception_exit (args : Args) (env : Env) (s : State)
    (pre rest : list (Time * env_event)) (T : Time) (e : exn) :
  e <> TimeoutError ->
  can_open (arg_csv args) s ->
  init_error env = None -> start_error env = None -> stop_error env = None ->
  script env = (pre ++ (T, Throw e) :: rest)%list ->
  forallb is_detect pre = true ->
  let res := main args env s in
  fst res = match e with KeyboardInterrupt => Done 0 | _ => Raised e end /\
  scanner_active (snd res) = false /\
  _fh (csvw (snd res)) = None /\
  exists tb ta,
    trace (snd res) =
      (trace s ++ tb ++ Woke (ByException e) T ::
       ta ++ teardown_trace (arg_csv args) s)%list /\
    forallb not_woke tb = true /\ forallb from_handler ta = true.
Proof.
  intros He Hcan Hinit Hstart Hstop Hscript Hpre res. subst res.
  rewrite main_state.
  destruct (scan_ble_wakes (arg_filter_name args) (arg_filter_address args) env
              (main_duration args) (arg_continuous args) (arg_csv args)
              pre rest T (Throw e) (ByException e) (Raised e) s
              Hcan Hinit Hstart Hstop Hscript Hpre eq_refl)
    as (Hr & Hrest).
  split; [| exact Hrest].
  assert (Hc : caught (arg_continuous args) (main_duration args) (Raised e) = Raised e).
  { unfold caught. destruct (arg_continuous args && in_none_zero (main_duration args));
      [reflexivity |]. destruct e; try reflexivity. contradiction. }
  rewrite Hc in Hr. unfold main.
  destruct (scan_ble _ _ _ _ _ env s) as [r s']. cbn [fst] in Hr. subst r.
  destruct e; reflexivity.
Qed.

Lemma exception_exit_witness :
  let args := mkArgs (S754_finite false 5 1) false None None None in
  let env := mkEnv (fun _ => false) None None [(3, Throw KeyboardInterrupt)] [] None in
  let s := initial_state ∅ (fun _ => "T") in
  fst (main args env s) = Done 0.
Proof.
  intros args env s.
  refine (proj1 (exception_exit args env s [] [] 3 KeyboardInterrupt _ _
                   eq_refl eq_refl eq_refl eq_refl eq_refl)).
  - discriminate.
  - intros p Hp. discriminate Hp.
Defined.

(** X7: when the log target cannot be opened, the run ends with
    [OSError] before anything else happens: no signal handler is
    registered, the scanner is neither constructed nor started, nothing is
    printed, no file changes, and the sink stays unopened; [main] lets the
    error through. *)
Theorem unwritable_target (args : Args) (env : Env) (s : State) (p : string) :
  arg_csv args = Some p -> p <> "" ->
  files s !! p = Some NoAccess ->
  let res := main args env s in
  fst res = Raised OSError /\
  trace (snd res) = trace s /\
  files (snd res) = files s /\
  scanner_active (snd res) = scanner_active s /\
  csvw (snd res) = CsvWriter_init (Some p).
Proof.
  intros Hcsv Hne Hno res. subst res.
  assert (Hrun :
    scan_ble (main_duration args) (arg_filter_name args) (arg_filter_address args)
      (arg_continuous args) (arg_csv args) env s =
    (Raised OSError, set_csvw (CsvWriter_init (Some p)) s)).
  { rewrite Hcsv. apply scan_ble_open_fails.
    apply (CsvWriter_open_fails _ p); [reflexivity | exact Hne | exact Hno]. }
  unfold main. rewrite Hrun. repeat split.
Qed.

Lemma unwritable_target_witness :
  let args := mkArgs (S754_finite false 5 1) false None None (Some "/proc/log.csv") in
  let env := mkEnv (fun _ => true) None None [(3, Trigger)] [] None in
  let s := initial_state {[ "/proc/log.csv" := NoAccess ]} (fun _ => "T") in
  fst (main args env s) = Raised OSError /\ trace (snd (main args env s)) = [].
Proof.
  intros args env s.
  destruct (unwritable_target args env s "/proc/log.csv" eq_refl
              ltac:(discriminate) eq_refl) as (H1 & H2 & _).
  split; assumption.
Defined.

(** X8: when stopping the discovery primitive raises, that exception
    is what the session ends with, whatever its [try] block did, and the
    sink is left open: its handle is never closed. *)
Theorem stop_failure (duration : option spec_float)
    (filter_name filter_address : option string) (continuous : bool)
    (csv_path : option string) (env : Env) (s : State) (e : exn) (path : string) :
  csv_path = Some path -> path <> "" ->
  files s !! path <> Some NoAccess ->
  init_error env = None ->
  stop_error env = Some e ->
  let res := scan_ble duration filter_name filter_address continuous csv_path env s in
  fst res <> Blocked ->
  fst res = Raised e /\
  _fh (csvw (snd res)) = Some (next_fd s) /\
  handles (snd res) !! next_fd s = Some path /\
  exists t, trace (snd res) = (trace s ++ t)%list /\ forallb not_close t = true.
Proof.
  intros Hcsv Hne Hacc Hinit Hstop res Hnb. subst res.
  pose proof (before_teardown_setup not_close _ (not_close_before_teardown true))
    as Hsetup.
  pose proof (before_teardown_handler not_close _ (not_close_before_teardown true))
    as Hh.
  destruct (open_cases not_close csv_path s Hsetup)
    as [[Hfalsy _] | [(_ & Hno & _) | (_ & _ & path' & s1 & Hopen & Hc & Hh1 & He)]].
  - rewrite Hcsv in Hfalsy. destruct path; [congruence | discriminate].
  - exfalso. apply Hno. intros q Hq _. congruence.
  - assert (path' = path).
    { pose proof (CsvWriter_open_spec (set_csvw (CsvWriter_init csv_path) s) path)
        as Hspec.
      rewrite Hcsv in Hspec, Hopen.
      destruct (Hspec eq_refl Hne Hacc) as (s1' & Ho & Hc' & _).
      rewrite Hopen in Ho. injection Ho as <-. congruence. }
    subst path'.
    destruct (scan_ble_setup not_close filter_name filter_address env duration
                continuous csv_path s s1 Hsetup Hopen)
      as (sa & Ka & _ & Heq).
    rewrite Heq, Hinit in Hnb |- *. clear Heq. unfold try_finally in *.
    pose proof (scan_try_keeps not_close filter_name filter_address env duration
                  continuous sa (not_close_before_teardown _)) as Kb.
    destruct (scan_try duration continuous (on_detect filter_name filter_address)
                env sa) as [r sb].
    cbn [snd] in Kb.
    destruct (scan_finally_raises not_close filter_name filter_address env e sb
                Hh Hstop) as (Hr & Kf).
    destruct (scan_finally (on_detect filter_name filter_address) env sb) as [rf sf].
    cbn [fst snd] in Hr, Kf. subst rf.
    pose proof (keeps_trans not_close _ _ _ Ka (keeps_trans not_close _ _ _ Kb Kf))
      as (Ek & Ck & Hk).
    destruct (extends_trans not_close _ _ _ He Ek) as (t & Ht & Hf).
    destruct r as [[] | e0 |]; cbn [fst snd] in *; [| | congruence].
    all: rewrite Ck, Hk, Hc; cbn; repeat split; eauto.
Qed.

Lemma stop_failure_witness :
  let env := mkEnv (fun _ => true) None None [(3, Trigger)] [] (Some BleakError) in
  let s := initial_state ∅ (fun _ => "T") in
  let res := scan_ble None None None true (Some "ble_log.csv") env s in
  fst res = Raised BleakError /\ handles (snd res) !! 3%nat = Some "ble_log.csv".
Proof.
  intros env s res.
  destruct (stop_failure None None None true (Some "ble_log.csv") env s BleakError
              "ble_log.csv" eq_refl ltac:(discriminate) ltac:(discriminate)
              eq_refl eq_refl ltac:(discriminate))
    as (H1 & _ & H3 & _).
  split; assumption.
Defined.

(** ** Reopening the log *)

(** One cycle of [open], [write], [close]. *)
Lemma sink_cycle (s : State) (path : string)
    (ts addr : string) (name : option string) (r tx : option Z)
    (manu : option (list (Z * list Byte.byte))) (uu : option (list string)) :
  _path (csvw s) = Some path -> path <> "" ->
  files s !! path <> Some NoAccess ->
  handles s !! next_fd s = None ->
  let row := detection_row ts addr name r tx manu uu in
  let old := content_of s path in
  exists s',
    (CsvWriter_open ;;; CsvWriter_write ts addr name r tx manu uu ;;;
     CsvWriter_close) s = (Done tt, s') /\
    content_of s' path =
      (if (String.length old =? 0)%nat then csv_row header else old) +:+ csv_row row /\
    files s' !! path <> Some NoAccess /\
    (forall p, p <> path -> files s' !! p = files s !! p) /\
    handles s' = handles s /\
    next_fd s' = S (next_fd s) /\
    csvw s' = mkCsvWriter (Some path) None None.
Proof.
  intros Hp Hne Hacc Hfresh row old.
  destruct (CsvWriter_open_spec s path Hp Hne Hacc)
    as (s1 & Hopen & Hc1 & Hh1 & Hf1 & _).
  assert (Hn1 : next_fd s1 = S (next_fd s) /\
                forall p, p <> path -> files s1 !! p = files s !! p).
  { revert Hopen. unfold CsvWriter_open. unfold bind at 1, get at 1. cbn match.
    rewrite Hp. clear Hf1 Hh1 Hc1. clearbody old. revert Hp Hne Hacc Hfresh.
    destruct path as [| c0 p0]; [congruence |]. intros Hp Hne Hacc Hfresh.
    set (path := String c0 p0) in *.
    unfold_eff. cbn.
    destruct (files s !! path) as [[c |] |] eqn:Hf; [| congruence |]; cbn;
      rewrite lookup_insert_eq; cbn; unfold content_of; cbn;
      rewrite ?Hf, ?lookup_insert_eq; cbn.
    - destruct (String.length c =? 0)%nat; cbn; rewrite ?lookup_insert_eq; cbn;
        intros [= <-]; cbn; (split; [reflexivity |]);
        intros p Hpne; rewrite ?lookup_insert_ne by congruence; reflexivity.
    - rewrite lookup_insert_eq. cbn. intros [= <-]. cbn. split; [reflexivity |].
      intros p Hpne. rewrite !lookup_insert_ne by congruence. reflexivity. }
  destruct Hn1 as [Hn1 Ho1].
  assert (Hw1 : _writer (csvw s1) = Some (next_fd s)) by (rewrite Hc1; reflexivity).
  assert (Hfd1 : handles s1 !! next_fd s = Some path)
    by (rewrite Hh1; apply lookup_insert_eq).
  pose proof (CsvWriter_write_spec s1 (next_fd s) path ts addr name r tx manu uu
                Hw1 Hfd1) as Hwrite.
  set (s2 := set_trace _ _) in Hwrite.
  assert (Hclose : CsvWriter_close s2 =
    (Done tt,
     set_csvw (mkCsvWriter (_path (csvw s2)) None None)
       (set_trace (trace s2 ++ [FileClosed (next_fd s)])
          (set_handles (delete (next_fd s) (handles s2)) s2)))).
  { apply (CsvWriter_close_spec s2 (next_fd s) path).
    - subst s2. cbn. rewrite Hc1. reflexivity.
    - exact Hfd1. }
  eexists. split.
  { unfold bind at 1. rewrite Hopen. unfold bind at 1. rewrite Hwrite. exact Hclose. }
  assert (Hcont1 : content_of s1 path =
                   if (String.length old =? 0)%nat then csv_row header else old)
    by (unfold content_of at 1; rewrite Hf1; reflexivity).
  subst s2. cbn [csvw handles files next_fd set_csvw set_trace set_handles set_files].
  repeat split.
  - unfold content_of at 1.
    cbn [files set_csvw set_trace set_handles set_files].
    rewrite lookup_insert_eq, Hcont1. reflexivity.
  - rewrite lookup_insert_eq. discriminate.
  - intros p Hpne. rewrite lookup_insert_ne by congruence. apply Ho1, Hpne.
  - rewrite Hh1. apply delete_insert_id, Hfresh.
  - exact Hn1.
  - rewrite Hc1. reflexivity.
Qed.


Section Reopen.

Variables (ts1 addr1 : string) (name1 : option string) (r1 tx1 : option Z)
  (manu1 : option (list (Z * list Byte.byte))) (uu1 : option (list string)).
Variables (ts2 addr2 : string) (name2 : option string) (r2 tx2 : option Z)
  (manu2 : option (list (Z * list Byte.byte))) (uu2 : option (list string)).

(** X9: two successive cycles of [open], [write], [close] on a target
    that starts out new or empty leave the header once, followed by the
    two rows, three records in all; every handle opened is released, and
    no other file changes. *)
Theorem reopen_one_header (s : State) (path : string) :
  _path (csvw s) = Some path -> path <> "" ->
  files s !! path <> Some NoAccess ->
  content_of s path = "" ->
  handles s !! next_fd s = None ->
  handles s !! S (next_fd s) = None ->
  let row1 := detection_row ts1 addr1 name1 r1 tx1 manu1 uu1 in
  let row2 := detection_row ts2 addr2 name2 r2 tx2 manu2 uu2 in
  let res :=
    ((CsvWriter_open ;;; CsvWriter_write ts1 addr1 name1 r1 tx1 manu1 uu1 ;;;
      CsvWriter_close) ;;;
     (CsvWriter_open ;;; CsvWriter_write ts2 addr2 name2 r2 tx2 manu2 uu2 ;;;
      CsvWriter_close)) s in
  fst res = Done tt /\
  content_of (snd res) path = csv_row header +:+ csv_row row1 +:+ csv_row row2 /\
  csv_records (csv_row header +:+ csv_row row1 +:+ csv_row row2) = 3%nat /\
  handles (snd res) = handles s /\
  _fh (csvw (snd res)) = None /\
  (forall p, p <> path -> files (snd res) !! p = files s !! p).
Proof.
  intros Hp Hne Hacc Hempty Hfresh1 Hfresh2 row1 row2 res.
  destruct (sink_cycle s path ts1 addr1 name1 r1 tx1 manu1 uu1 Hp Hne Hacc Hfresh1)
    as (s1 & Hrun1 & Hc1 & Ha1 & Ho1 & Hh1 & Hn1 & Hw1).
  rewrite Hempty in Hc1. cbn [String.length Nat.eqb] in Hc1.
  destruct (sink_cycle s1 path ts2 addr2 name2 r2 tx2 manu2 uu2)
    as (s2 & Hrun2 & Hc2 & Ha2 & Ho2 & Hh2 & Hn2 & Hw2).
  { rewrite Hw1. reflexivity. }
  { exact Hne. }
  { exact Ha1. }
  { rewrite Hh1, Hn1. exact Hfresh2. }
  assert (Hres : res = (Done tt, s2))
    by (subst res; unfold bind at 1; rewrite Hrun1; exact Hrun2).
  rewrite Hres. cbn [fst snd].
  split; [reflexivity |]. split; [| split; [| split; [| split]]].
  - rewrite Hc2, Hc1.
    assert (Hlen : (String.length (csv_row header +:+ csv_row row1) =? 0)%nat = false)
      by reflexivity.
    fold row1. rewrite Hlen. apply append_assoc.
  - unfold csv_records. rewrite !records_row.
    rewrite <- (append_nil_r (csv_row row2)), records_row. reflexivity.
  - congruence.
  - rewrite Hw2. reflexivity.
  - intros p Hpne. rewrite Ho2, Ho1 by exact Hpne. reflexivity.
Qed.

End Reopen.

Lemma reopen_one_header_witness :
  let s := set_csvw (CsvWriter_init (Some "ble_log.csv"))
             (initial_state ∅ (fun _ => "T")) in
  let res :=
    ((CsvWriter_open ;;;
      CsvWriter_write "T1" "AA:BB" (Some "Tag") (Some (-70)) None None None ;;;
      CsvWriter_close) ;;;
     (CsvWriter_open ;;;
      CsvWriter_write "T2" "CC:DD" None (Some (-50)) (Some 4) None None ;;;
      CsvWriter_close)) s in
  content_of (snd res) "ble_log.csv" =
    "timestamp,address,name,rssi,tx_power,manufacturer_data,service_uuids" +:+ crlf +:+
    "T1,AA:BB,Tag,-70,,-,-" +:+ crlf +:+ "T2,CC:DD,,-50,4,-,-" +:+ crlf.
Proof.
  intros s res.
  destruct (reopen_one_header "T1" "AA:BB" (Some "Tag") (Some (-70)) None None None
              "T2" "CC:DD" None (Some (-50)) (Some 4) None None s "ble_log.csv"
              eq_refl ltac:(discriminate) ltac:(discriminate) eq_refl eq_refl eq_refl)
    as (_ & Hc & _).
  fold res in Hc. rewrite Hc. reflexivity.
Defined.

(** ** The filter and the case of letters *)

Section FilterCase.









End FilterCase.




(** ** The company id at any size, and reading a rendering back *)

Section Rendering.

Lemma string_forall_app (p : ascii -> bool) (a b : string) :
  string_forall p (a +:+ b) = string_forall p a && string_forall p b.
Proof.
  induction a as [| c a IH]; [reflexivity |].
  rewrite append_cons. cbn [string_forall]. rewrite IH, andb_assoc. reflexivity.
Qed.

Lemma string_forall_impl (p q : ascii -> bool) (s : string) :
  (forall c, p c = true -> q c = true) ->
  string_forall p s = true -> string_forall q s = true.
Proof.
  intros Hpq. induction s as [| c s IH]; [reflexivity |].
  cbn [string_forall]. rewrite !andb_true_iff. intros [Hc Hs]. auto.
Qed.

Lemma length_app (a b : string) :
  String.length (a +:+ b) = (String.length a + String.length b)%nat.
Proof.
  induction a as [| c a IH]; [reflexivity |].
  rewrite append_cons. cbn [String.length]. rewrite IH. reflexivity.
Qed.

Lemma length_replicate_char (n : nat) (c : ascii) :
  String.length (PyStr.replicate_char n c) = n.
Proof. induction n as [| n IH]; [reflexivity |]. cbn. rewrite IH. reflexivity. Qed.

Lemma hex_value_zeros (k : nat) (s : string) :
  hex_value_from 0 (PyStr.replicate_char k "0"%char +:+ s) = hex_value_from 0 s.
Proof.
  induction k as [| k IH]; [reflexivity |].
  cbn [PyStr.replicate_char]. rewrite append_cons. cbn [hex_value_from].
  exact IH.
Qed.

Lemma zeros_lower (k : nat) :
  string_forall is_lower_hex (PyStr.replicate_char k "0"%char) = true.
Proof. induction k as [| k IH]; [reflexivity |]. cbn [PyStr.replicate_char string_forall]. rewrite IH. reflexivity. Qed.

(** The digits produced for [n] denote [n]: prepended to any string they
    shift what was read so far by a power of sixteen and add [n]. *)
Lemma hex_digits_value (fuel : nat) :
  forall n, 0 <= n < 2 ^ Z.of_nat fuel ->
  exists w, forall a acc,
    hex_value_from a (hex_digits fuel n acc) = hex_value_from (a * w + n) acc.
Proof.
  induction fuel as [| fuel IH]; intros n Hn.
  - exists 1. intros a acc. cbn [hex_digits]. change (2 ^ Z.of_nat 0) with 1 in Hn.
    f_equal. lia.
  - destruct (Z_lt_le_dec n 16) as [Hs | Hl].
    + exists 16. intros a acc. rewrite hex_digits_small by lia.
      cbn [hex_value_from].
      rewrite hex_digit_value_digit by (apply Z.mod_pos_bound; lia).
      rewrite Z.mod_small by lia. f_equal. lia.
    + assert (Hpos : 0 < 2 ^ Z.of_nat fuel) by (apply Z.pow_pos_nonneg; lia).
      assert (Hpow : 2 ^ Z.of_nat (S fuel) = 2 * 2 ^ Z.of_nat fuel)
        by (rewrite Nat2Z.inj_succ, Z.pow_succ_r by lia; reflexivity).
      destruct (IH (n / 16)) as [w Hw].
      { split; [apply Z.div_pos; lia |]. apply Z.div_lt_upper_bound; lia. }
      exists (16 * w). intros a acc. rewrite hex_digits_large by lia.
      rewrite Hw. cbn [hex_value_from].
      rewrite hex_digit_value_digit by (apply Z.mod_pos_bound; lia).
      f_equal. pose proof (Z.div_mod n 16 ltac:(lia)). lia.
Qed.

Lemma hex_digits_lower (fuel : nat) :
  forall n acc, 0 <= n ->
  string_forall is_lower_hex acc = true ->
  string_forall is_lower_hex (hex_digits fuel n acc) = true.
Proof.
  induction fuel as [| fuel IH]; intros n acc Hn Hacc; [exact Hacc |].
  cbn [hex_digits].
  assert (Hd : string_forall is_lower_hex (String (hex_digit (n mod 16)) acc) = true).
  { cbn [string_forall]. rewrite Hacc, hex_digit_lower; [reflexivity |].
    apply Z.mod_pos_bound; lia. }
  destruct (n <? 16); [exact Hd |].
  apply IH; [apply Z.div_pos; lia | exact Hd].
Qed.

Lemma hex_of_nonneg_value (n : Z) : 0 <= n -> hex_value (hex_of_nonneg n) = n.
Proof.
  intros Hn. unfold hex_value, hex_of_nonneg.
  destruct (hex_digits_value (S (Z.to_nat (Z.log2 n))) n) as [w Hw].
  { split; [exact Hn |].
    rewrite Nat2Z.inj_succ, Z2Nat.id by apply Z.log2_nonneg.
    destruct (Z.eq_dec n 0) as [-> | Hnz]; [reflexivity |].
    apply Z.log2_spec. lia. }
  rewrite Hw. cbn [hex_value_from]. lia.
Qed.

Lemma hex_of_nonneg_lower (n : Z) :
  0 <= n -> string_forall is_lower_hex (hex_of_nonneg n) = true.
Proof. intros Hn. apply hex_digits_lower; [exact Hn | reflexivity]. Qed.

(** *** Reading a payload and an entry back *)

Lemma hex_digit_inj (a b : Z) :
  0 <= a < 16 -> 0 <= b < 16 -> hex_digit a = hex_digit b -> a = b.
Proof.
  intros Ha Hb Heq.
  rewrite <- (hex_digit_value_digit a Ha), <- (hex_digit_value_digit b Hb), Heq.
  reflexivity.
Qed.

Lemma byte_to_N_inj (b b' : Byte.byte) : Byte.to_N b = Byte.to_N b' -> b = b'.
Proof.
  intros Heq. pose proof (Byte.of_to_N b) as H1. pose proof (Byte.of_to_N b') as H2.
  rewrite Heq in H1. congruence.
Qed.

Lemma bytes_hex_inj (p p' : list Byte.byte) : bytes_hex p = bytes_hex p' -> p = p'.
Proof.
  revert p'. induction p as [| b p IH]; intros [| b' p'] Heq;
    [reflexivity | discriminate | discriminate |].
  cbn [bytes_hex] in Heq. injection Heq as Hhi Hlo Hrest.
  pose proof (Byte.to_N_bounded b) as Bb. pose proof (Byte.to_N_bounded b') as Bb'.
  apply hex_digit_inj in Hhi;
    [| split; [apply Z.div_pos; lia | apply Z.div_lt_upper_bound; lia] ..].
  apply hex_digit_inj in Hlo; [| apply Z.mod_pos_bound; lia ..].
  f_equal; [| apply IH, Hrest].
  apply byte_to_N_inj, N2Z.inj.
  pose proof (Z.div_mod (Z.of_N (Byte.to_N b)) 16 ltac:(lia)).
  pose proof (Z.div_mod (Z.of_N (Byte.to_N b')) 16 ltac:(lia)).
  lia.
Qed.

Lemma manu_entry_spec_eq (e : Z * list Byte.byte) :
  manu_entry_spec e =
  String "0" (String "x"
    (String (hex_digit (fst e / 4096 mod 16))
       (String (hex_digit (fst e / 256 mod 16))
          (String (hex_digit (fst e / 16 mod 16))
             (String (hex_digit (fst e mod 16))
                (String ":" (bytes_hex (snd e)))))))).
Proof. reflexivity. Qed.

Lemma manu_entry_spec_inj (e e' : Z * list Byte.byte) :
  0 <= fst e < 2 ^ 16 -> 0 <= fst e' < 2 ^ 16 ->
  manu_entry_spec e = manu_entry_spec e' -> e = e'.
Proof.
  intros He He' Heq. rewrite !manu_entry_spec_eq in Heq.
  injection Heq as H3 H2 H1 H0 Hp.
  destruct e as [cid p], e' as [cid' p']. cbn [fst snd] in *.
  f_equal; [| apply bytes_hex_inj, Hp].
  rewrite <- (hex4_value cid He), <- (hex4_value cid' He').
  unfold hex4. rewrite H3, H2, H1, H0. reflexivity.
Qed.

Lemma lower_hex_not_comma (c : ascii) : is_lower_hex c = true -> not_comma c = true.
Proof. destruct c as [[] [] [] [] [] [] [] []]; vm_compute; congruence. Qed.

Lemma manu_entry_spec_no_comma (e : Z * list Byte.byte) :
  string_forall not_comma (manu_entry_spec e) = true.
Proof.
  rewrite manu_entry_spec_eq. cbn [string_forall].
  rewrite !(lower_hex_not_comma (hex_digit _))
    by (apply hex_digit_lower, Z.mod_pos_bound; lia).
  rewrite (string_forall_impl _ _ _ lower_hex_not_comma (bytes_hex_lower _)).
  reflexivity.
Qed.

(** *** Splitting a joined string at its commas *)

Lemma join_cons (sep x : string) (l : list string) :
  PyStr.join sep (x :: l) = x +:+ join_rest sep l.
Proof. destruct l; [symmetry; apply append_nil_r | reflexivity]. Qed.

Lemma split_at_comma (a : string) :
  forall b ta tb,
    string_forall not_comma a = true -> string_forall not_comma b = true ->
    (ta = "" \/ exists r, ta = String "," r) ->
    (tb = "" \/ exists r, tb = String "," r) ->
    a +:+ ta = b +:+ tb -> a = b /\ ta = tb.
Proof.
  induction a as [| c a IH]; intros [| c' b] ta tb Ha Hb Hta Htb Heq.
  - split; [reflexivity | exact Heq].
  - exfalso. rewrite append_cons in Heq. change ("" +:+ ta) with ta in Heq.
    cbn [string_forall] in Hb. apply andb_true_iff in Hb as [Hc _].
    destruct Hta as [-> | [r ->]]; [discriminate |].
    injection Heq as <- _. discriminate.
  - exfalso. rewrite append_cons in Heq. change ("" +:+ tb) with tb in Heq.
    cbn [string_forall] in Ha. apply andb_true_iff in Ha as [Hc _].
    destruct Htb as [-> | [r ->]]; [discriminate |].
    injection Heq as -> _. discriminate.
  - rewrite !append_cons in Heq. injection Heq as <- Heq.
    cbn [string_forall] in Ha, Hb.
    apply andb_true_iff in Ha as [_ Ha]. apply andb_true_iff in Hb as [_ Hb].
    destruct (IH b ta tb Ha Hb Hta Htb Heq) as [-> ->]. split; reflexivity.
Qed.

Lemma join_rest_shape (l : list string) :
  join_rest "," l = "" \/ exists r, join_rest "," l = String "," r.
Proof.
  destruct l as [| x l]; [left; reflexivity | right].
  exists (PyStr.join "," (x :: l)). reflexivity.
Qed.

Lemma join_comma_inj (l1 : list string) :
  forall x y l2,
    Forall (fun s => string_forall not_comma s = true) (x :: l1) ->
    Forall (fun s => string_forall not_comma s = true) (y :: l2) ->
    PyStr.join "," (x :: l1) = PyStr.join "," (y :: l2) ->
    x :: l1 = y :: l2.
Proof.
  induction l1 as [| x1 l1 IH]; intros x y l2 H1 H2 Heq;
    rewrite !join_cons in Heq;
    apply Forall_cons_1 in H1 as [Hx H1]; apply Forall_cons_1 in H2 as [Hy H2];
    destruct (split_at_comma _ _ _ _ Hx Hy (join_rest_shape _) (join_rest_shape _) Heq)
      as [-> Hrest].
  - destruct l2 as [| y2 l2]; [reflexivity | discriminate].
  - destruct l2 as [| y2 l2]; [discriminate |].
    f_equal. apply IH; [assumption .. |].
    change (join_rest "," (x1 :: l1)) with (String "," (PyStr.join "," (x1 :: l1))) in Hrest.
    change (join_rest "," (y2 :: l2)) with (String "," (PyStr.join "," (y2 :: l2))) in Hrest.
    congruence.
Qed.

End Rendering.

(** X12: [format(cid, "#06x")] for any integer: the sign, [0x] and
    lower-case hexadecimal digits that denote the absolute value of the
    company id, the whole at least six characters wide. A company id of
    more than four digits is never cut. *)
Theorem format_x6_denotes (cid : Z) :
  exists digits,
    format_x6 cid = sign_of cid +:+ "0x" +:+ digits /\
    hex_value digits = Z.abs cid /\
    string_forall is_lower_hex digits = true /\
    (6 <= String.length (format_x6 cid))%nat.
Proof.
  set (ds := hex_of_nonneg (Z.abs cid)).
  set (used := (String.length (sign_of cid) + 2 + String.length ds)%nat).
  exists (PyStr.replicate_char (6 - used) "0"%char +:+ ds).
  assert (Hfmt : format_x6 cid
                 = sign_of cid +:+ "0x" +:+ PyStr.replicate_char (6 - used) "0"%char +:+ ds)
    by reflexivity.
  split; [exact Hfmt | split; [| split]].
  - unfold hex_value. rewrite hex_value_zeros.
    apply hex_of_nonneg_value. lia.
  - rewrite string_forall_app, zeros_lower.
    apply hex_of_nonneg_lower. lia.
  - rewrite Hfmt, !length_app, length_replicate_char.
    change (String.length "0x") with 2%nat. subst used. lia.
Qed.

(** X13: the manufacturer-data column can be read back: two mappings
    with 16-bit company ids that are rendered alike have the same entries
    in the same order, and only the empty mapping is rendered as the
    placeholder. *)
Theorem fmt_manu_data_injective (m1 m2 : list (Z * list Byte.byte)) :
  Forall (fun e => 0 <= fst e < 2 ^ 16) m1 ->
  Forall (fun e => 0 <= fst e < 2 ^ 16) m2 ->
  (_fmt_manu_data (Some m1) = _fmt_manu_data (Some m2) -> m1 = m2) /\
  (_fmt_manu_data (Some m1) = "-" -> m1 = []).
Proof.
  intros H1 H2.
  assert (Hrender : forall e m, Forall (fun e => 0 <= fst e < 2 ^ 16) (e :: m) ->
            _fmt_manu_data (Some (e :: m))
            = PyStr.join "," (manu_entry_spec e :: map manu_entry_spec m)).
  { intros e m Hm. unfold _fmt_manu_data.
    change (manu_entry_spec e :: map manu_entry_spec m)
      with (map manu_entry_spec (e :: m)).
    f_equal. apply map_ext_Forall.
    eapply Forall_impl; [exact Hm |].
    intros a Ha. apply manu_entry_16bit, Ha. }
  assert (Hdash : forall e m, Forall (fun e => 0 <= fst e < 2 ^ 16) (e :: m) ->
            _fmt_manu_data (Some (e :: m)) <> "-").
  { intros e m Hm. rewrite (Hrender e m Hm), join_cons, manu_entry_spec_eq.
    rewrite append_cons. discriminate. }
  split.
  - intros Heq. destruct m1 as [| e1 m1], m2 as [| e2 m2].
    + reflexivity.
    + exfalso. apply (Hdash e2 m2 H2). symmetry. exact Heq.
    + exfalso. apply (Hdash e1 m1 H1). exact Heq.
    + rewrite (Hrender e1 m1 H1), (Hrender e2 m2 H2) in Heq.
      apply (join_comma_inj _ _ _ (map manu_entry_spec m2)) in Heq.
      * change (map manu_entry_spec (e1 :: m1) = map manu_entry_spec (e2 :: m2)) in Heq.
        clear Hrender Hdash. revert Heq H1 H2.
        generalize (e1 :: m1) as l1, (e2 :: m2) as l2. clear.
        induction l1 as [| a l1 IH]; intros [| b l2] Heq Hl1 Hl2;
          [reflexivity | discriminate | discriminate |].
        cbn [map] in Heq.
        pose proof (f_equal (List.hd EmptyString) Heq) as Hab.
        pose proof (f_equal (@List.tl string) Heq) as Hrest.
        cbn [List.hd List.tl] in Hab, Hrest.
        apply Forall_cons_1 in Hl1 as [Ha Hl1]. apply Forall_cons_1 in Hl2 as [Hb Hl2].
        f_equal; [apply manu_entry_spec_inj; assumption | apply IH; assumption].
      * change (Forall (fun s => string_forall not_comma s = true)
                  (map manu_entry_spec (e1 :: m1))).
        apply Forall_map, Forall_forall. intros e _. apply manu_entry_spec_no_comma.
      * change (Forall (fun s => string_forall not_comma s = true)
                  (map manu_entry_spec (e2 :: m2))).
        apply Forall_map, Forall_forall. intros e _. apply manu_entry_spec_no_comma.
  - intros Heq. destruct m1 as [| e1 m1]; [reflexivity |].
    exfalso. apply (Hdash e1 m1 H1). exact Heq.
Qed.

Lemma fmt_manu_data_injective_witness :
  _fmt_manu_data (Some [(76, [Byte.x02; Byte.x15])])
    <> _fmt_manu_data (Some [(76, [Byte.x02]); (21, [])]).
Proof.
  intros Heq.
  destruct (fmt_manu_data_injective
              [(76, [Byte.x02; Byte.x15])] [(76, [Byte.x02]); (21, [])]) as [Hinj _].
  - repeat constructor; cbn; lia.
  - repeat constructor; cbn; lia.
  - specialize (Hinj Heq). discriminate Hinj.
Defined.

(** ** Failures of the discovery primitive before the wait *)

Section Entering.

Variable P : effect -> bool.
Variables filter_name filter_address : option string.
Variable env : Env.
Variable duration : option spec_float.
Variable continuous : bool.
Variable csv_path : option string.

(** With a sink that can be opened, [scan_ble] reaches the construction
    of the scanner, having added only entries of the setup. *)
Lemma scan_ble_enters (s : State) :
  (forall e, from_setup e = true -> P e = true) ->
  can_open csv_path s ->
  exists sa t,
    forallb P t = true /\ trace sa = (trace s ++ t)%list /\
    csvw sa = opened_sink csv_path s /\
    (forall path, csv_path = Some path -> path <> "" ->
                  handles sa !! next_fd s = Some path) /\
    scan_ble duration filter_name filter_address continuous csv_path env s =
    match init_error env with
    | Some e => (Raised e, sa)
    | None =>
        try_finally
          (scan_try duration continuous (on_detect filter_name filter_address) env)
          (scan_finally (on_detect filter_name filter_address) env) sa
    end.
Proof.
  intros HP Hcan.
  set (s0 := set_csvw (CsvWriter_init csv_path) s).
  assert (Hopen : exists s1 t,
            CsvWriter_open s0 = (Done tt, s1) /\
            forallb P t = true /\ trace s1 = (trace s ++ t)%list /\
            csvw s1 = opened_sink csv_path s /\
            (forall path, csv_path = Some path -> path <> "" ->
                          handles s1 !! next_fd s = Some path)).
  { unfold opened_sink. destruct (PyStr.truthy csv_path) eqn:Htruthy.
    - destruct csv_path as [[| c p] |] eqn:Hcsv; try discriminate.
      set (path := String c p) in *.
      assert (Hne : path <> "") by discriminate.
      destruct (CsvWriter_open_spec s0 path eq_refl Hne (Hcan path eq_refl Hne))
        as (s1 & Ho & Hc & Hh & _ & Ht & _).
      exists s1. eexists. split; [exact Ho |]. split; [| split; [exact Ht |]].
      + destruct (String.length _ =? 0)%nat; cbn [forallb];
          rewrite ?(HP (FileOpened _ _) eq_refl), ?(HP (FileWritten _ _) eq_refl);
          reflexivity.
      + split; [exact Hc |].
        intros q Hq _. assert (Hqp : q = path) by congruence.
        rewrite Hqp, Hh. apply lookup_insert_eq.
    - exists s0, []. split; [apply CsvWriter_open_inert; exact Htruthy |].
      split; [reflexivity |]. split; [symmetry; apply app_nil_r |].
      split; [reflexivity |].
      intros q Hq Hne. rewrite Hq in Htruthy. destruct q; [congruence | discriminate]. }
  destruct Hopen as (s1 & t1 & Ho & Hf1 & Ht1 & Hc1 & Hh1).
  destruct (scan_ble_setup P filter_name filter_address env duration continuous
              csv_path s s1 HP Ho)
    as (sa & ((t2 & Ht2 & Hf2) & Hc2 & Hh2) & _ & Heq).
  exists sa, (t1 ++ t2)%list.
  split; [rewrite forallb_app, Hf1, Hf2; reflexivity |].
  split; [rewrite Ht2, Ht1, <- app_assoc; reflexivity |].
  split; [congruence |].
  split; [intros q Hq Hne; rewrite Hh2; auto | exact Heq].
Qed.

End Entering.

(** X14: when the construction of the scanner raises, the session ends
    with that exception outside its [try] statement: the discovery is
    neither started nor stopped, and a sink that was opened stays open,
    its handle never closed. *)
Theorem construction_failure (duration : option spec_float)
    (filter_name filter_address : option string) (continuous : bool)
    (csv_path : option string) (env : Env) (s : State) (e : exn) :
  init_error env = Some e ->
  can_open csv_path s ->
  let res := scan_ble duration filter_name filter_address continuous csv_path env s in
  fst res = Raised e /\
  csvw (snd res) = opened_sink csv_path s /\
  (forall path, csv_path = Some path -> path <> "" ->
                handles (snd res) !! next_fd s = Some path) /\
  exists t, trace (snd res) = (trace s ++ t)%list /\ forallb from_setup t = true.
Proof.
  intros Hinit Hcan res. subst res.
  destruct (scan_ble_enters from_setup filter_name filter_address env duration
              continuous csv_path s ltac:(auto) Hcan)
    as (sa & t & Hf & Ht & Hc & Hh & Heq).
  rewrite Heq, Hinit. cbn [fst snd].
  split; [reflexivity |]. split; [exact Hc |]. split; [exact Hh |].
  exists t. split; assumption.
Qed.

Lemma construction_failure_witness :
  let env := mkEnv (fun _ => true) (Some BleakError) None [(3, Trigger)] [] None in
  let s := initial_state ∅ (fun _ => "T") in
  let res := scan_ble None None None true (Some "ble_log.csv") env s in
  fst res = Raised BleakError /\ handles (snd res) !! next_fd s = Some "ble_log.csv".
Proof.
  intros env s res.
  destruct (construction_failure None None None true (Some "ble_log.csv") env s
              BleakError eq_refl ltac:(intros p _ _; discriminate))
    as (H1 & _ & H3 & _).
  split; [exact H1 | apply H3; [reflexivity | discriminate]].
Defined.

(** X15: when starting the discovery raises, the [finally] block still
    runs: the scanner is stopped although it never started, the sink is
    closed, and the exception of [start] is what the session ends with.
    Nothing is waited for. *)
Theorem start_failure (duration : option spec_float)
    (filter_name filter_address : option string) (continuous : bool)
    (csv_path : option string) (env : Env) (s : State) (e : exn) :
  init_error env = None ->
  start_error env = Some e ->
  stop_error env = None ->
  can_open csv_path s ->
  let res := scan_ble duration filter_name filter_address continuous csv_path env s in
  fst res = Raised e /\
  _fh (csvw (snd res)) = None /\ _writer (csvw (snd res)) = None /\
  exists t0,
    forallb setup_or_handler t0 = true /\
    trace (snd res) = (trace s ++ t0 ++ teardown_trace csv_path s)%list.
Proof.
  intros Hinit Hstart Hstop Hcan res. subst res.
  assert (HPs : forall x, from_setup x = true -> setup_or_handler x = true)
    by (intros x Hx; unfold setup_or_handler; rewrite Hx; reflexivity).
  assert (HPh : forall x, from_handler x = true -> setup_or_handler x = true)
    by (intros x Hx; unfold setup_or_handler; rewrite Hx; apply orb_true_r).
  destruct (scan_ble_enters setup_or_handler filter_name filter_address env duration
              continuous csv_path s HPs Hcan)
    as (sa & t & Hf & Ht & Hc & Hh & Heq).
  rewrite Heq, Hinit. clear Heq. unfold try_finally.
  assert (Htry : scan_try duration continuous (on_detect filter_name filter_address)
                   env sa = (Raised e, sa)).
  { unfold scan_try. unfold bind at 1. unfold scanner_start. rewrite Hstart.
    reflexivity. }
  rewrite Htry.
  assert (Hopen : forall fd, _fh (csvw sa) = Some fd ->
                    _writer (csvw sa) = Some fd /\ is_Some (handles sa !! fd)).
  { rewrite Hc. unfold opened_sink.
    destruct csv_path as [[| c p] |]; cbn; try discriminate.
    intros fd [= <-]. split; [reflexivity |].
    eexists. apply Hh; [reflexivity | discriminate]. }
  assert (Hclosed : _fh (csvw sa) = None -> _writer (csvw sa) = None).
  { rewrite Hc. unfold opened_sink.
    destruct (PyStr.truthy csv_path); [discriminate | reflexivity]. }
  destruct (scan_finally_completes setup_or_handler filter_name filter_address env sa
              HPh Hstop Hopen Hclosed)
    as (Hr & _ & Hfh & Hw & t0 & Hf0 & Ht0).
  destruct (scan_finally (on_detect filter_name filter_address) env sa) as [rf sf].
  cbn [fst snd] in Hr, Hfh, Hw, Ht0. subst rf. cbn [fst snd].
  repeat split; [exact Hfh | exact Hw |].
  exists (t ++ t0)%list. split; [rewrite forallb_app, Hf, Hf0; reflexivity |].
  rewrite Ht0, Ht, Hc, <- !app_assoc. unfold teardown_trace, opened_sink.
  destruct (PyStr.truthy csv_path); reflexivity.
Qed.

Lemma start_failure_witness :
  let env := mkEnv (fun _ => true) None (Some BleakError) [(3, Trigger)] [] None in
  let s := initial_state ∅ (fun _ => "T") in
  let res := scan_ble None None None true (Some "ble_log.csv") env s in
  fst res = Raised BleakError /\ _fh (csvw (snd res)) = None.
Proof.
  intros env s res.
  destruct (start_failure None None None true (Some "ble_log.csv") env s
              BleakError eq_refl eq_refl eq_refl ltac:(intros p _ _; discriminate))
    as (H1 & H2 & _).
  split; assumption.
Defined.

(** ** The sink after [close] *)



(** ** The name on the console *)

(** X17: for the name that [on_detect] resolves, the fall-back of
    [print_detection] to the local name of the advertisement never
    decides what is shown: the call behaves as on an advertisement
    without a local name. *)
Theorem local_name_fallback_redundant (addr : string) (device : BLEDevice)
    (adv : AdvertisementData) (r : option Z) (s : State) :
  print_detection addr (resolve_name device adv) r adv s
  = print_detection addr (resolve_name device adv) r (without_local_name adv) s.
Proof.
  unfold print_detection, resolve_name, without_local_name.
  destruct (dev_name device) as [[| c n] |], (local_name adv) as [[| c' n'] |];
    reflexivity.
Qed.
